(** * Leftover Recipe Finder: the normalisation, ranking and caching core

    A shallow embedding of [server.js] (the Express handlers
    [GET /api/recipes] and [GET /api/substitutions]) and of
    [RecipeCard.js] (the substitution cleaning done by
    [fetchSubstitutions] and the state of the card), followed by the
    properties the specification states about them and by further
    properties of the handlers and of the client.

    JavaScript strings are sequences of UTF-16 code units.  The model
    covers the strings whose code units are below 256 (ASCII and
    Latin-1), one [ascii] per code unit; [toLowerCase], the classes
    [\s], [\w], [\d], [.] and [trim] are given on that range. *)

From Stdlib Require Import ZArith NArith List String Ascii Bool Lia.
From Stdlib Require Import Permutation Sorted.
From stdpp Require Import base option list gmap strings pretty.

Local Open Scope string_scope.
Local Open Scope list_scope.
Local Open Scope Z_scope.

(** ** JavaScript strings *)

Module Js.

Definition code (c : ascii) : N := N_of_ascii c.

Definition between (lo hi : N) (c : ascii) : bool :=
  ((lo <=? code c) && (code c <=? hi))%N.

(** [[a-z]] *)
Definition isLowerAZ (c : ascii) : bool := between 97 122 c.

(** [\d] is [[0-9]]. *)
Definition isDigit (c : ascii) : bool := between 48 57 c.

(** [\w] is [[A-Za-z0-9_]]. *)
Definition isWordChar (c : ascii) : bool :=
  between 65 90 c || between 97 122 c || between 48 57 c || (code c =? 95)%N.

(** Line terminators below 256: LF and CR.  [.] matches every other
    code unit. *)
Definition isLineTerminator (c : ascii) : bool :=
  ((code c =? 10) || (code c =? 13))%N.

(** [\s], and what [trim] removes: TAB, LF, VT, FF, CR, SPACE and
    NO-BREAK SPACE. *)
Definition isWhiteSpace (c : ascii) : bool :=
  (between 9 13 c || (code c =? 32) || (code c =? 160))%N.

(** [toLowerCase] on one code unit: A-Z, and the Latin-1 capitals
    U+00C0..U+00DE without the multiplication sign U+00D7. *)
Definition lowerChar (c : ascii) : ascii :=
  if between 65 90 c then ascii_of_N (code c + 32)
  else if between 192 222 c && negb (code c =? 215)%N
       then ascii_of_N (code c + 32)
  else c.

Fixpoint toLowerCase (s : string) : string :=
  match s with
  | EmptyString => EmptyString
  | String c s' => String (lowerChar c) (toLowerCase s')
  end.

(** [s.replace(/[^...]/g, "")]: keep the code units of the class. *)
Fixpoint keepChars (keep : ascii -> bool) (s : string) : string :=
  match s with
  | EmptyString => EmptyString
  | String c s' =>
      if keep c then String c (keepChars keep s') else keepChars keep s'
  end.

(** [s.replace(/\s+/g, " ")]: every maximal run of white space becomes one
    space.  [inRun] tells that the code unit before [s] was white space,
    so that the run has already produced its space. *)
Fixpoint collapseRuns (inRun : bool) (s : string) : string :=
  match s with
  | EmptyString => EmptyString
  | String c s' =>
      if isWhiteSpace c
      then if inRun then collapseRuns true s'
           else String " " (collapseRuns true s')
      else String c (collapseRuns false s')
  end.

Definition collapseWhiteSpace (s : string) : string := collapseRuns false s.

Fixpoint trimStart (s : string) : string :=
  match s with
  | EmptyString => EmptyString
  | String c s' => if isWhiteSpace c then trimStart s' else s
  end.

Fixpoint trimEnd (s : string) : string :=
  match s with
  | EmptyString => EmptyString
  | String c s' =>
      match trimEnd s' with
      | EmptyString => if isWhiteSpace c then EmptyString else String c EmptyString
      | t => String c t
      end
  end.

Definition trim (s : string) : string := trimEnd (trimStart s).

(** [s.split(",")]: never empty, [""] splits into [[""]]. *)
Fixpoint split (sep : ascii) (s : string) : list string :=
  match s with
  | EmptyString => [EmptyString]
  | String c s' =>
      if Ascii.eqb c sep then EmptyString :: split sep s'
      else match split sep s' with
           | [] => [String c EmptyString]
           | t :: ts => String c t :: ts
           end
  end.

(** [xs.join(",")] *)
Definition join (sep : string) (xs : list string) : string :=
  String.concat sep xs.

(** [Boolean(s)] for a string: the empty string alone is falsy. *)
Definition truthy (s : string) : bool :=
  match s with EmptyString => false | _ => true end.

(** [[...new Set(xs)]]: a [Set] keeps insertion order and [add] of a
    member changes nothing. *)
Definition setAdd (acc : list string) (x : string) : list string :=
  if bool_decide (x ∈ acc) then acc else acc ++ [x].

Definition uniq (xs : list string) : list string :=
  fold_left setAdd xs [].

(** [parseInt(s)] without a radix: leading white space, a sign, the prefix
    [0x] or [0X] for radix 16, then the longest run of digits of the radix;
    [None] is [NaN].  The value is exact: the model covers the integers that
    a Number holds exactly. *)
Definition digitValue (radix : Z) (c : ascii) : option Z :=
  let value :=
    if between 48 57 c then Some (Z.of_N (code c) - 48)
    else if between 97 122 c then Some (Z.of_N (code c) - 97 + 10)
    else if between 65 90 c then Some (Z.of_N (code c) - 65 + 10)
    else None in
  match value with
  | Some d => if d <? radix then Some d else None
  | None => None
  end.

Fixpoint digitsValue (radix : Z) (acc : option Z) (s : string) : option Z :=
  match s with
  | EmptyString => acc
  | String c s' =>
      match digitValue radix c with
      | Some d => digitsValue radix (Some (radix * default 0 acc + d)) s'
      | None => acc
      end
  end.

Definition parseInt (s : string) : option Z :=
  let s := trimStart s in
  let (sign, s) :=
    match s with
    | String "-" rest => (-1, rest)
    | String "+" rest => (1, rest)
    | _ => (1, s)
    end in
  let (radix, s) :=
    match s with
    | String "0" (String "x" rest) => (16, rest)
    | String "0" (String "X" rest) => (16, rest)
    | _ => (10, s)
    end in
  match digitsValue radix None s with
  | Some n => Some (sign * n)
  | None => None
  end.

(** *** Regular expressions

    Patterns are built from matchers in continuation-passing style, the
    way ECMAScript defines them: a matcher gets the current state and a
    continuation for the rest of the pattern, and a failure of the
    continuation makes it try its next choice.  A state is the code unit
    before the current position (for [\b]), the input that is left and the
    number of code units consumed since the match began; the final
    continuation returns that number. *)

Definition Continuation : Type := option ascii -> string -> nat -> option nat.
Definition Matcher : Type := option ascii -> string -> nat -> Continuation -> option nat.

Definition first (s : string) : option ascii :=
  match s with EmptyString => None | String c _ => Some c end.

(** One code unit of a class: a literal, [.], [\d], [\s]. *)
Definition chr (p : ascii -> bool) : Matcher := fun _ s n k =>
  match s with
  | String c s' => if p c then k (Some c) s' (S n) else None
  | EmptyString => None
  end.

Definition seq (m1 m2 : Matcher) : Matcher := fun prev s n k =>
  m1 prev s n (fun prev' s' n' => m2 prev' s' n' k).

(** [m1|m2]: the left alternative first. *)
Definition alt (m1 m2 : Matcher) : Matcher := fun prev s n k =>
  match m1 prev s n k with
  | Some r => Some r
  | None => m2 prev s n k
  end.

Definition eps : Matcher := fun prev s n k => k prev s n.

(** Greedy [m?]. *)
Definition opt (m : Matcher) : Matcher := alt m eps.

(** Greedy [c*] for a class [c] ([.*], [\s*], [\d*]): as many code units
    as the class takes, giving them back one at a time while the rest of
    the pattern fails. *)
Fixpoint star (p : ascii -> bool) (prev : option ascii) (s : string)
    (n : nat) (k : Continuation) {struct s} : option nat :=
  match s with
  | String c s' =>
      if p c then
        match star p (Some c) s' (S n) k with
        | Some r => Some r
        | None => k prev s n
        end
      else k prev s n
  | EmptyString => k prev s n
  end.

(** Greedy [c+]. *)
Definition plus (p : ascii -> bool) : Matcher := seq (chr p) (star p).

Definition isWordOpt (c : option ascii) : bool :=
  match c with Some c => isWordChar c | None => false end.

(** [\b]: exactly one side of the position is a word character. *)
Definition wordBoundary : Matcher := fun prev s n k =>
  if xorb (isWordOpt prev) (isWordOpt (first s)) then k prev s n else None.

(** The class of [.] *)
Definition notLineTerminator (c : ascii) : bool := negb (isLineTerminator c).

Definition lit (a : ascii) : Matcher := chr (Ascii.eqb a).

(** Canonicalisation under the [i] flag is [toUpperCase] when that gives one
    code unit: a-z, and the Latin-1 small letters U+00E0..U+00FE without the
    division sign U+00F7, go to their capitals; the capitals of U+00B5 and
    U+00FF lie above 255 and belong to no other code unit below 256. *)
Definition canonicalize (c : ascii) : ascii :=
  if between 97 122 c then ascii_of_N (code c - 32)
  else if between 224 254 c && negb (code c =? 247)%N
       then ascii_of_N (code c - 32)
  else c.

(** A literal under the [i] flag. *)
Definition litI (a : ascii) : Matcher :=
  chr (fun c => Ascii.eqb (canonicalize a) (canonicalize c)).

(** A word of lower-case letters under the [i] flag. *)
Fixpoint wordI (w : string) : Matcher :=
  match w with
  | EmptyString => eps
  | String a w' => seq (litI a) (wordI w')
  end.

(** The length of the match of [m] that begins at [s], if there is one. *)
Definition exec (m : Matcher) (prev : option ascii) (s : string) : option nat :=
  m prev s 0%nat (fun _ _ n => Some n).

(** [s.replace(re, "")] for a global [re]: the matches are found from left
    to right, each search beginning where the last match ended, and are
    removed.  [skip] counts the code units still inside the current match;
    an empty match removes nothing. *)
Fixpoint removeFrom (m : Matcher) (skip : nat) (prev : option ascii)
    (s : string) : string :=
  match s with
  | EmptyString => EmptyString
  | String c s' =>
      match skip with
      | S k => removeFrom m k (Some c) s'
      | O =>
          match exec m prev s with
          | Some (S k) => removeFrom m k (Some c) s'
          | _ => String c (removeFrom m 0 (Some c) s')
          end
      end
  end.

Definition removeAll (m : Matcher) (s : string) : string :=
  removeFrom m 0 None s.

End Js.

(** ** The ingredient normaliser ([normalizeIngredient]) *)

Definition normalizeIngredient (name : string) : string :=
  Js.trim
    (Js.collapseWhiteSpace
       (Js.keepChars (fun c => Js.isLowerAZ c || Js.isWhiteSpace c)
          (Js.toLowerCase name))).

(** [[`No known substitutes for ${ingredient}`]], in both files. *)
Definition noKnownSubstitutes (ingredient : string) : list string :=
  ["No known substitutes for " +:+ ingredient].

(** ** Substitution cleaning in the client ([fetchSubstitutions]) *)

Module Client.

Import Js.

(** [/.*=\s*/g] *)
Definition labelPrefix : Matcher :=
  seq (star notLineTerminator) (seq (lit "=") (star isWhiteSpace)).

(** [(cup|tbsp|tsp|oz|grams?|ml|cups?|tablespoons?|teaspoons?)] *)
Definition unitWord : Matcher :=
  alt (wordI "cup")
 (alt (wordI "tbsp")
 (alt (wordI "tsp")
 (alt (wordI "oz")
 (alt (seq (wordI "gram") (opt (litI "s")))
 (alt (wordI "ml")
 (alt (seq (wordI "cup") (opt (litI "s")))
 (alt (seq (wordI "tablespoon") (opt (litI "s")))
      (seq (wordI "teaspoon") (opt (litI "s"))))))))))%char.

(** [/\b\d+\s*(cup|...|teaspoons?)\b/gi] *)
Definition quantityUnit : Matcher :=
  seq wordBoundary
    (seq (plus isDigit)
       (seq (star isWhiteSpace) (seq unitWord wordBoundary))).

(** The callback of [substitutes.map]. *)
Definition cleanSub (s : string) : string :=
  trim (removeAll quantityUnit (removeAll labelPrefix s)).

Definition cleanSubs (substitutes : list string) : list string :=
  List.filter (fun s => (0 <? String.length s)%nat) (map cleanSub substitutes).

Definition uniqueSubs (substitutes : list string) : list string :=
  uniq (map trim (cleanSubs substitutes)).

(** What is stored under [subs[ingredient]] when the reply has status 200
    and a [substitutes] field. *)
Definition displaySubs (ingredient : string) (substitutes : list string)
    : list string :=
  match uniqueSubs substitutes with
  | [] => noKnownSubstitutes ingredient
  | shown => shown
  end.

(** The reply of [axios.get] to the client: the promise is rejected
    ([None]) or resolves with a status and the [substitutes] field of the
    body, when it has one. *)
Record Response := { res_status : Z; res_substitutes : option (list string) }.

Definition fetchSubstitutions (ingredient : string) (res : option Response)
    : list string :=
  match res with
  | Some r =>
      match res_status r =? 200, res_substitutes r with
      | true, Some substitutes => displaySubs ingredient substitutes
      | _, _ => noKnownSubstitutes ingredient
      end
  | None => ["Could not fetch substitutes."]
  end.

End Client.

(** ** Data model of the server *)

(** An entry of [usedIngredients] or [missedIngredients]. *)
Record Ingredient := { ing_id : Z; ing_name : string }.

(** A record of the catalog's reply to [findByIngredients]; an optional
    field that is absent is [None]. *)
Record RawRecipe := {
  raw_id : Z;
  raw_title : string;
  raw_image : string;
  raw_cuisines : option (list string);
  raw_dishTypes : option (list string);
  raw_readyInMinutes : option Z;
  raw_usedIngredients : option (list Ingredient);
  raw_missedIngredients : option (list Ingredient) }.

(** The shaped recipe; [sourceUrl] is [null] ([None]) when it is built. *)
Record Recipe := {
  id : Z;
  title : string;
  image : string;
  cuisines : list string;
  dishTypes : list string;
  readyInMinutes : Z;
  usedIngredients : list Ingredient;
  missedIngredients : list Ingredient;
  matchesCuisine : bool;
  sourceUrl : option string }.

Definition setSourceUrl (url : string) (r : Recipe) : Recipe :=
  {| id := id r; title := title r; image := image r; cuisines := cuisines r;
     dishTypes := dishTypes r; readyInMinutes := readyInMinutes r;
     usedIngredients := usedIngredients r;
     missedIngredients := missedIngredients r;
     matchesCuisine := matchesCuisine r; sourceUrl := Some url |}.

(** *** The external catalog

    Every request to the catalog is recorded.  A reply is a rejected promise
    ([Failed]) or the body of the response; it may depend on all the
    requests made before.  A body that the handler cannot read (a search
    reply that is no array of records, a reply without a body) makes it
    throw inside the [try] that holds the request, as a rejected promise
    does: such a reply is [Failed] too. *)

Inductive Call :=
| FindByIngredients (ingredients : string) (number : Z)
| Information (recipeId : Z)
| Substitutes (ingredientName : string).

Inductive Reply (A : Type) :=
| Failed
| Replied (data : A).
Arguments Failed {A}.
Arguments Replied {A} data.

(** The body of a reply of the substitution endpoint. *)
Record SubstituteData := {
  sub_status : option string;
  sub_substitutes : option (list string) }.

Record Catalog := {
  findByIngredients : list Call -> string -> Z -> Reply (list RawRecipe);
  (** the [sourceUrl] field of the body, when it has one *)
  information : list Call -> Z -> Reply (option string);
  substitutes : list Call -> string -> Reply SubstituteData }.

(** *** Objects used as maps

    [recipeCache] and [subsCache] are plain objects: [cache[key]] finds the
    own property [key] or else a property of [Object.prototype]. *)

Inductive Property (V : Type) :=
| Own (v : V)
| Inherited
| Undefined.
Arguments Own {V} v.
Arguments Inherited {V}.
Arguments Undefined {V}.

Definition objectPrototype : list string :=
  [ "constructor"; "__defineGetter__"; "__defineSetter__"; "hasOwnProperty";
    "__lookupGetter__"; "__lookupSetter__"; "isPrototypeOf";
    "propertyIsEnumerable"; "toString"; "valueOf"; "__proto__";
    "toLocaleString" ].

Definition getProperty {V} (o : gmap string V) (key : string) : Property V :=
  match o !! key with
  | Some v => Own v
  | None => if bool_decide (key ∈ objectPrototype) then Inherited else Undefined
  end.

(** *** The state of the server process *)

Record Server := {
  subsCache : gmap string (list string);
  recipeCache : gmap string (list Recipe);
  (** the requests sent to the catalog so far *)
  calls : list Call }.

Definition initial : Server :=
  {| subsCache := ∅; recipeCache := ∅; calls := [] |}.

(** Handlers are state transformers. *)
Definition M (A : Type) : Type := Server -> A * Server.

#[global] Instance handler_ret : MRet M := fun A a s => (a, s).
#[global] Instance handler_bind : MBind M := fun A B f m s =>
  let (a, s') := m s in f a s'.

Definition getRecipeCache (key : string) : M (Property (list Recipe)) :=
  fun s => (getProperty (recipeCache s) key, s).

Definition setRecipeCache (key : string) (recipes : list Recipe) : M unit :=
  fun s => (tt, {| subsCache := subsCache s;
                   recipeCache := <[key := recipes]> (recipeCache s);
                   calls := calls s |}).

Definition getSubsCache (key : string) : M (Property (list string)) :=
  fun s => (getProperty (subsCache s) key, s).

Definition setSubsCache (key : string) (subs : list string) : M unit :=
  fun s => (tt, {| subsCache := <[key := subs]> (subsCache s);
                   recipeCache := recipeCache s;
                   calls := calls s |}).

Definition record (c : Call) (s : Server) : Server :=
  {| subsCache := subsCache s; recipeCache := recipeCache s;
     calls := calls s ++ [c] |}.

Section Handlers.

Variable catalog : Catalog.

Definition axiosFindByIngredients (ingredients : string) (number : Z)
    : M (Reply (list RawRecipe)) :=
  fun s => (findByIngredients catalog (calls s) ingredients number,
            record (FindByIngredients ingredients number) s).

Definition axiosInformation (recipeId : Z) : M (Reply (option string)) :=
  fun s => (information catalog (calls s) recipeId,
            record (Information recipeId) s).

Definition axiosSubstitutes (ingredientName : string)
    : M (Reply SubstituteData) :=
  fun s => (substitutes catalog (calls s) ingredientName,
            record (Substitutes ingredientName) s).

(** **** [GET /api/recipes] *)

Definition pantry : list string := ["salt"; "oil"].

Definition cleanIngredients (ingredients : string) : list string :=
  List.filter Js.truthy
    (map normalizeIngredient (Js.split "," ingredients)).

Definition ingSet (ingredients : string) : list string :=
  Js.uniq (cleanIngredients ingredients).

(** [[...new Set([...ingSet, ...pantry])]] *)
Definition withPantry (ingSet : list string) : list string :=
  Js.uniq (ingSet ++ pantry).

Definition finalIngredients (ingredients : string) : string :=
  Js.join "," (withPantry (ingSet ingredients)).

(** [req.query] for a request that gives each parameter once at most: a
    parameter is one string, or is absent ([None]).  A request that repeats
    a parameter is outside of this type. *)
Record RecipesQuery := {
  q_ingredients : option string;
  q_number : option string;
  q_cuisine : option string }.

(** [parseInt(req.query.number) || 3]: [parseInt(undefined)] is [NaN], and
    [NaN] and [0] are falsy.  The count is the exact integer: it is the
    Number of the code for the counts up to 2^53 - 1 in absolute value. *)
Definition number (q : RecipesQuery) : Z :=
  match q_number q with
  | Some text =>
      match Js.parseInt text with
      | Some n => if n =? 0 then 3 else n
      | None => 3
      end
  | None => 3
  end.

Definition cuisine (q : RecipesQuery) : list string :=
  match q_cuisine q with
  | Some c =>
      if Js.truthy c then map Js.toLowerCase (Js.split "," c) else []
  | None => []
  end.

(** The template literal prints the count in decimal digits, as it does
    for a Number up to 2^53 - 1 in absolute value. *)
Definition cacheKey (finalIngredients : string) (number : Z)
    (cuisine : list string) : string :=
  finalIngredients +:+ "|" +:+ pretty number +:+ "|" +:+ Js.join "," cuisine.

(** The callback of [response.data.map]. *)
Definition shape (cuisine : list string) (r : RawRecipe) : Recipe :=
  {| id := raw_id r;
     title := raw_title r;
     image := raw_image r;
     cuisines := default [] (raw_cuisines r);
     dishTypes := default [] (raw_dishTypes r);
     readyInMinutes := default 0 (raw_readyInMinutes r);
     usedIngredients := default [] (raw_usedIngredients r);
     missedIngredients := default [] (raw_missedIngredients r);
     matchesCuisine :=
       (length cuisine =? 0)%nat
       || existsb (fun c => bool_decide (Js.toLowerCase c ∈ cuisine))
            (default [] (raw_cuisines r));
     sourceUrl := None |}.

(** [detail.data.sourceUrl || "#"], and ["#"] in the [catch]. *)
Definition resolveSourceUrl (detail : Reply (option string)) : string :=
  match detail with
  | Replied (Some url) => if Js.truthy url then url else "#"
  | Replied None => "#"
  | Failed => "#"
  end.

(** [for (let recipe of recipes) { ... }] *)
Fixpoint fetchDetails (recipes : list Recipe) : M (list Recipe) :=
  match recipes with
  | [] => mret []
  | recipe :: rest =>
      detail ← axiosInformation (id recipe);
      rest' ← fetchDetails rest;
      mret (setSourceUrl (resolveSourceUrl detail) recipe :: rest')
  end.

Definition score (r : Recipe) : Z :=
  Z.of_nat (length (usedIngredients r))
  - Z.of_nat (length (missedIngredients r)).

(** The comparator given to [recipes.sort]. *)
Definition compareRecipes (a b : Recipe) : Z :=
  let scoreA := score a in
  let scoreB := score b in
  if scoreB =? scoreA
  then Z.b2z (matchesCuisine b) - Z.b2z (matchesCuisine a)
  else scoreB - scoreA.

(** [Array.prototype.sort] is stable: [x], which stood before all of
    [sorted], passes the elements that the comparator puts before it and
    stops at the first one that it does not. *)
Fixpoint insertSorted {A} (compare : A -> A -> Z) (x : A) (sorted : list A)
    : list A :=
  match sorted with
  | [] => [x]
  | y :: rest =>
      if 0 <? compare x y then y :: insertSorted compare x rest
      else x :: sorted
  end.

Definition sort {A} (compare : A -> A -> Z) (xs : list A) : list A :=
  foldr (insertSorted compare) [] xs.

Definition rank (recipes : list Recipe) : list Recipe :=
  sort compareRecipes recipes.

(** [xs.slice(0, n)]: a negative [n] counts from the end. *)
Definition slice0 {A} (n : Z) (xs : list A) : list A :=
  if n <? 0 then take (Z.to_nat (Z.of_nat (length xs) + n)) xs
  else take (Z.to_nat n) xs.

Inductive RecipesResponse :=
| RecipesJson (recipes : list Recipe)      (* 200 *)
| RecipesJsonInherited                     (* 200, a property of Object.prototype *)
| RecipesBadRequest                        (* 400, 'Please provide ingredients' *)
| RecipesServerError                       (* 500, 'Failed to fetch recipes' *)
| RecipesTypeError.                        (* thrown outside the try: no response *)

Definition apiRecipes (q : RecipesQuery) : M RecipesResponse :=
  let number := number q in
  let cuisine := cuisine q in
  match q_ingredients q with
  | None => mret RecipesTypeError
  | Some ingredients =>
      let finalIngredients := finalIngredients ingredients in
      let cacheKey := cacheKey finalIngredients number cuisine in
      cached ← getRecipeCache cacheKey;
      match cached with
      | Own recipes => mret (RecipesJson recipes)
      | Inherited => mret RecipesJsonInherited
      | Undefined =>
          if negb (Js.truthy finalIngredients) then mret RecipesBadRequest
          else
            response ← axiosFindByIngredients finalIngredients number;
            match response with
            | Failed => mret RecipesServerError
            | Replied data =>
                let recipes := map (shape cuisine) data in
                recipes ← fetchDetails recipes;
                let recipes := rank recipes in
                let recipes := slice0 number recipes in
                setRecipeCache cacheKey recipes;;
                mret (RecipesJson recipes)
            end
      end
  end.

(** **** [GET /api/substitutions] *)

Definition defaultSubs : gmap string (list string) :=
  list_to_map
    [ ("milk", ["oat milk"; "almond milk"; "soy milk"]);
      ("butter", ["margarine"; "coconut oil"; "olive oil"]);
      ("egg", ["flax egg"; "chia egg"; "applesauce"]);
      ("sugar", ["honey"; "maple syrup"; "coconut sugar"]);
      ("cheese", ["nutritional yeast"; "vegan cheese"]);
      ("cream", ["coconut cream"; "cashew cream"]);
      ("flour", ["almond flour"; "oat flour"]);
      ("basil", ["oregano"; "thyme"; "spinach"]);
      ("broccoli", ["cauliflower"; "brussels sprouts"; "asparagus"]);
      ("garlic", ["shallots"; "garlic powder"; "chives"]);
      ("chicken", ["tofu"; "jackfruit"]);
      ("tomato", ["canned tomatoes"; "tomato sauce"; "tomato paste + water"]);
      ("onion", ["shallots"; "leeks"; "onion powder"]);
      ("potato", ["sweet potato"; "cauliflower"; "turnips"]);
      ("carrot", ["sweet potato"; "butternut squash"; "parsnips"]);
      ("bell_pepper", ["poblano"; "zucchini"; "carrot"]);
      ("spinach", ["kale"; "arugula"; "chard"]);
      ("lemon", ["lime"; "vinegar + a pinch of sugar"]);
      ("lime", ["lemon"; "white vinegar"]);
      ("rice", ["quinoa"; "cauliflower rice"]);
      ("pasta", ["zoodles"; "rice noodles"; "quinoa"]);
      ("ground_beef", ["turkey"; "chicken"; "lentils"]);
      ("beef", ["mushrooms"; "jackfruit"; "seitan"]);
      ("fish", ["tofu"; "tempeh"; "chickpeas"]);
      ("soy_sauce", ["tamari"; "coconut aminos"; "Worcestershire"]);
      ("vinegar", ["lemon juice"; "lime juice"]);
      ("oil", ["butter"; "ghee"; "coconut oil"]);
      ("honey", ["maple syrup"; "agave"]);
      ("vanilla", ["almond extract"; "maple syrup"]);
      ("breadcrumbs", ["crushed crackers"; "rolled oats"; "panko"]);
      ("cornstarch", ["flour"; "arrowroot powder"; "potato starch"]);
      ("baking_powder", ["baking soda + cream of tartar"]);
      ("baking_soda", ["baking powder (use 3x amount)"]) ].

Inductive SubsResponse :=
| SubsBadRequest (substitutes : list string)   (* 400 *)
| SubsJson (substitutes : list string)         (* 200 *)
| SubsJsonInherited.                           (* 200, a property of Object.prototype *)

(** [response.data.status === "failure" || !response.data.substitutes] *)
Definition noData (data : SubstituteData) : bool :=
  bool_decide (sub_status data = Some "failure")
  || negb (bool_decide (is_Some (sub_substitutes data))).

(** The handler, for any table in the place of [defaultSubs]. *)
Definition substitutionsWith (table : gmap string (list string))
    (ingredient : option string) : M SubsResponse :=
  match ingredient with
  | None => mret (SubsBadRequest ["Please provide an ingredient name"])
  | Some ingredient =>
      if negb (Js.truthy ingredient)
      then mret (SubsBadRequest ["Please provide an ingredient name"])
      else
        let lower := Js.toLowerCase ingredient in
        cached ← getSubsCache lower;
        match cached with
        | Own subs => mret (SubsJson subs)
        | Inherited => mret SubsJsonInherited
        | Undefined =>
            match getProperty table lower with
            | Own subs => mret (SubsJson subs)
            | Inherited => mret SubsJsonInherited
            | Undefined =>
                response ← axiosSubstitutes ingredient;
                match response with
                | Failed => mret (SubsJson (noKnownSubstitutes ingredient))
                | Replied data =>
                    match sub_substitutes data with
                    | Some subs =>
                        if noData data
                        then mret (SubsJson (noKnownSubstitutes ingredient))
                        else setSubsCache lower subs;; mret (SubsJson subs)
                    | None => mret (SubsJson (noKnownSubstitutes ingredient))
                    end
                end
            end
        end
  end.

Definition apiSubstitutions : option string -> M SubsResponse :=
  substitutionsWith defaultSubs.

End Handlers.

(** ** The recipe card ([RecipeCard])

    The three state variables of the component are objects keyed by
    ingredient name.  Every update is functional ([prev => ({ ...prev,
    [name]: v })]), so the updates of one event apply in their order to the
    state that the events before have left, and a click is handled on the
    state that is rendered.  [inFlight] lists the requests for substitutes
    that have been sent and have not settled. *)

Module Card.

Record State := {
  subs : gmap string (list string);
  loadingSubs : gmap string bool;
  openSubs : gmap string bool;
  inFlight : list string }.

Definition initial : State :=
  {| subs := ∅; loadingSubs := ∅; openSubs := ∅; inFlight := [] |}.

(** [flags[name]] as a condition: an inherited property of
    [Object.prototype] is a function or an object, which is truthy. *)
Definition isSet (flags : gmap string bool) (name : string) : bool :=
  match getProperty flags name with
  | Own b => b
  | Inherited => true
  | Undefined => false
  end.

Definition setOpenSubs (name : string) (value : bool) (st : State) : State :=
  {| subs := subs st; loadingSubs := loadingSubs st;
     openSubs := <[name := value]> (openSubs st);
     inFlight := inFlight st |}.

Definition setLoadingSubs (name : string) (value : bool) (st : State)
    : State :=
  {| subs := subs st;
     loadingSubs := <[name := value]> (loadingSubs st);
     openSubs := openSubs st; inFlight := inFlight st |}.

Definition setSubs (name : string) (value : list string) (st : State)
    : State :=
  {| subs := <[name := value]> (subs st);
     loadingSubs := loadingSubs st; openSubs := openSubs st;
     inFlight := inFlight st |}.

Definition withInFlight (requests : list string) (st : State) : State :=
  {| subs := subs st; loadingSubs := loadingSubs st;
     openSubs := openSubs st; inFlight := requests |}.

(** [fetchSubstitutions] up to its [await]: the loading flag is set and
    the request is sent. *)
Definition request (ingredient : string) (st : State) : State :=
  withInFlight (ingredient :: inFlight st)
    (setLoadingSubs ingredient true st).

(** [fetchSubstitutions] after its [await]: [try] or [catch] stores a
    list, [finally] clears the loading flag. *)
Definition settle (ingredient : string) (res : option Client.Response)
    (st : State) : State :=
  setLoadingSubs ingredient false
    (setSubs ingredient (Client.fetchSubstitutions ingredient res) st).

(** The [onClick] of the button in the row of [name]. *)
Definition onClick (name : string) (st : State) : State :=
  if isSet (openSubs st) name then setOpenSubs name false st
  else setOpenSubs name true (request name st).

(** The events of a card: a click on a button that is not disabled by a
    loading flag that is [true] (a click is allowed when the flag is
    inherited, whatever React makes of such a value), and the settling of
    one of the requests in flight, with any outcome. *)
Inductive step : State -> State -> Prop :=
| step_click name st :
    loadingSubs st !! name <> Some true ->
    step st (onClick name st)
| step_settle name res before after st :
    inFlight st = before ++ name :: after ->
    step st (withInFlight (before ++ after) (settle name res st)).

End Card.

(** ** Vocabulary of the properties *)

(** *** Strings *)

Fixpoint allChars (p : ascii -> bool) (s : string) : bool :=
  match s with
  | EmptyString => true
  | String c s' => p c && allChars p s'
  end.

Fixpoint hasChar (a : ascii) (s : string) : bool :=
  match s with
  | EmptyString => false
  | String c s' => Ascii.eqb c a || hasChar a s'
  end.



(** The code unit before the position that follows [s]. *)
Fixpoint lastChar (prev : option ascii) (s : string) : option ascii :=
  match s with
  | EmptyString => prev
  | String c s' => lastChar (Some c) s'
  end.

Definition keptByNormalizer (c : ascii) : bool :=
  Js.isLowerAZ c || Js.isWhiteSpace c.

(** [spaced afterSpace s]: [s] holds letters a-z and single spaces only, and
    does not begin with a space when [afterSpace] is set. *)
Fixpoint spaced (afterSpace : bool) (s : string) : bool :=
  match s with
  | EmptyString => true
  | String c s' =>
      if Ascii.eqb c " " then negb afterSpace && spaced true s'
      else Js.isLowerAZ c && spaced false s'
  end.

(** As [spaced], and [s] does not end in a space either. *)
Fixpoint keyFrom (afterSpace : bool) (s : string) : bool :=
  match s with
  | EmptyString => negb afterSpace
  | String c s' =>
      if Ascii.eqb c " " then negb afterSpace && keyFrom true s'
      else Js.isLowerAZ c && keyFrom false s'
  end.

(** An IngredientKey: words of letters a-z, one space between two words,
    nothing else; the empty string is one. *)
Definition isIngredientKey (s : string) : bool :=
  match s with
  | EmptyString => true
  | _ => keyFrom true s
  end.

(** *** Patterns *)


(** What follows [.*] in [labelPrefix]. *)
Definition afterLabel : Js.Continuation := fun prev s n =>
  Js.seq (Js.lit "=") (Js.star Js.isWhiteSpace) prev s n (fun _ _ n => Some n).




(** *** Requests and state *)

(** The key that [apiRecipes] builds for a query with these ingredients. *)
Definition searchCacheKey (ingredients : string) (q : RecipesQuery) : string :=
  cacheKey (finalIngredients ingredients) (number q) (cuisine q).

Definition query (ingredients : string) : RecipesQuery :=
  {| q_ingredients := Some ingredients; q_number := None; q_cuisine := None |}.

(** The replies that the loop of [fetchDetails] receives, one per recipe,
    when the catalog has been sent [history] before. *)
Fixpoint detailReplies (catalog : Catalog) (history : list Call)
    (recipes : list Recipe) : list (Reply (option string)) :=
  match recipes with
  | [] => []
  | r :: rest =>
      information catalog history (id r)
      :: detailReplies catalog (history ++ [Information (id r)]) rest
  end.

Definition attach (r : Recipe) (detail : Reply (option string)) : Recipe :=
  setSourceUrl (resolveSourceUrl detail) r.

Definition withRecipeCache (key : string) (recipes : list Recipe)
    (s : Server) : Server :=
  {| subsCache := subsCache s;
     recipeCache := <[key := recipes]> (recipeCache s);
     calls := calls s |}.

Definition withSubsCache (key : string) (subs : list string)
    (s : Server) : Server :=
  {| subsCache := <[key := subs]> (subsCache s);
     recipeCache := recipeCache s;
     calls := calls s |}.

(** *** Ranking *)

(** [precedes a b]: the ranking allows [a] before [b]; the score of [a] is
    higher, or the scores are equal and it is not [b] alone that matches the
    cuisine. *)
Definition precedes (a b : Recipe) : Prop :=
  score b < score a
  \/ (score a = score b
      /\ (matchesCuisine a = true \/ matchesCuisine b = false)).

(** The recipes with a given score and cuisine flag. *)
Definition sameRank (sc : Z) (mc : bool) (r : Recipe) : bool :=
  (score r =? sc) && Bool.eqb (matchesCuisine r) mc.

(** *** Examples *)

(** A catalog for the examples: one recipe for the ingredient list
    "egg,rice,salt,oil", none for any other list, no details, no
    substitutes. *)
Definition eggFriedRice : RawRecipe :=
  {| raw_id := 716429; raw_title := "Egg fried rice"; raw_image := "rice.jpg";
     raw_cuisines := None; raw_dishTypes := None; raw_readyInMinutes := None;
     raw_usedIngredients := None; raw_missedIngredients := None |}.

Definition eggRiceCatalog : Catalog :=
  {| findByIngredients := fun _ ingredients _ =>
       if bool_decide (ingredients = "egg,rice,salt,oil")
       then Replied [eggFriedRice] else Replied [];
     information := fun _ _ => Failed;
     substitutes := fun _ _ => Failed |}.

Definition rawRecipe (recipeId : Z) (name : string) : RawRecipe :=
  {| raw_id := recipeId; raw_title := name; raw_image := "";
     raw_cuisines := None; raw_dishTypes := None; raw_readyInMinutes := None;
     raw_usedIngredients := None; raw_missedIngredients := None |}.

Definition threeRecipes : list RawRecipe :=
  [rawRecipe 11 "Omelette"; rawRecipe 12 "Rice pudding"; rawRecipe 13 "Egg curry"].

(** A catalog with three recipes; the details of the second one cannot be
    fetched. *)
Definition threeRecipesCatalog : Catalog :=
  {| findByIngredients := fun _ _ _ => Replied threeRecipes;
     information := fun _ recipeId =>
       if recipeId =? 12 then Failed
       else Replied (Some "https://example.org/recipe");
     substitutes := fun _ _ => Failed |}.

(** A recipe with [used] used and [missed] missed ingredients. *)
Definition someIngredients (n : nat) : list Ingredient :=
  map (fun i => {| ing_id := Z.of_nat i; ing_name := "item" |}) (seq 0 n).

Definition candidate (recipeId : Z) (used missed : nat) (matches : bool)
    : Recipe :=
  {| id := recipeId; title := "candidate"; image := ""; cuisines := [];
     dishTypes := []; readyInMinutes := 0;
     usedIngredients := someIngredients used;
     missedIngredients := someIngredients missed;
     matchesCuisine := matches; sourceUrl := None |}.

(** A server that has cached substitutes for "milk". *)
Definition milkCached : Server :=
  {| subsCache := {[ "milk" := ["lactose-free milk"] ]};
     recipeCache := ∅; calls := [] |}.

(** A catalog that knows substitutes for every ingredient. *)
Definition seitanCatalog : Catalog :=
  {| findByIngredients := fun _ _ _ => Failed;
     information := fun _ _ => Failed;
     substitutes := fun _ _ =>
       Replied {| sub_status := Some "success";
                  sub_substitutes := Some ["1 cup = 1 cup seitan"] |} |}.

(** *** Runs of the server *)

Inductive Request :=
| SearchRecipes (q : RecipesQuery)
| FindSubstitutes (ingredient : option string).

(** The state after one request, and after a sequence of requests, each
    handled to its end before the next one begins. *)
Definition serve (catalog : Catalog) (r : Request) (s : Server) : Server :=
  match r with
  | SearchRecipes q => (apiRecipes catalog q s).2
  | FindSubstitutes ingredient => (apiSubstitutions catalog ingredient s).2
  end.

Definition run (catalog : Catalog) (requests : list Request) (s : Server)
    : Server :=
  fold_left (fun s r => serve catalog r s) requests s.

Definition hasSourceUrl (r : Recipe) : Prop :=
  exists url, sourceUrl r = Some url /\ url <> "".

(** Every cached answer is ranked, has its source URLs and is no longer
    than the count of the request whose key it is stored under. *)
Definition recipesCachedWell (s : Server) : Prop :=
  forall key recipes,
    recipeCache s !! key = Some recipes ->
    StronglySorted precedes recipes
    /\ Forall hasSourceUrl recipes
    /\ exists ingredients q,
         key = searchCacheKey ingredients q
         /\ (0 <= number q -> Z.of_nat (length recipes) <= number q).

(** The keys of the substitution cache are lower-case and are neither keys
    of [defaultSubs] nor property names of [Object.prototype]. *)
Definition subsCachedWell (s : Server) : Prop :=
  forall key subs,
    subsCache s !! key = Some subs ->
    Js.toLowerCase key = key
    /\ defaultSubs !! key = None
    /\ key ∉ objectPrototype.

(** A catalog whose search fails. *)
Definition failingCatalog : Catalog :=
  {| findByIngredients := fun _ _ _ => Failed;
     information := fun _ _ => Failed;
     substitutes := fun _ _ =>
       Replied {| sub_status := Some "failure"; sub_substitutes := None |} |}.

(** The list that [finalIngredients] joins. *)
Definition finalIngredientList (ingredients : string) : list string :=
  withPantry (ingSet ingredients).

(** The list cached under [key] is the list of a reply of the catalog to a
    request that the log records, for an ingredient whose lower-case form
    is [key]. *)
Definition fromCatalog (catalog : Catalog) (s : Server) (key : string)
    (subs : list string) : Prop :=
  exists ingredient before after data,
    Js.toLowerCase ingredient = key
    /\ calls s = before ++ Substitutes ingredient :: after
    /\ substitutes catalog before ingredient = Replied data
    /\ sub_substitutes data = Some subs
    /\ sub_status data <> Some "failure".

(** A query with the number parameter [text] and nothing else. *)
Definition withNumber (text : string) : RecipesQuery :=
  {| q_ingredients := None; q_number := Some text; q_cuisine := None |}.

(** * Properties *)

(** ** Code units *)

Ltac ascii_cases c := destruct c as [[] [] [] [] [] [] [] []].

Lemma lower_not_white c : Js.isLowerAZ c = true -> Js.isWhiteSpace c = false.
Proof. ascii_cases c; vm_compute; congruence. Qed.

Lemma lower_not_space c : Js.isLowerAZ c = true -> Ascii.eqb c " " = false.
Proof. ascii_cases c; vm_compute; congruence. Qed.

Lemma lower_fixed c : Js.isLowerAZ c = true -> Js.lowerChar c = c.
Proof. ascii_cases c; vm_compute; congruence. Qed.

Lemma space_white c : Ascii.eqb c " " = true -> Js.isWhiteSpace c = true.
Proof. intros ->%Ascii.eqb_eq. reflexivity. Qed.

(** ** Ingredient keys *)

Lemma keepChars_all p s : allChars p (Js.keepChars p s) = true.
Proof.
  induction s as [|c s IH]; simpl; [reflexivity|].
  destruct (p c) eqn:E; simpl; [rewrite E|]; exact IH.
Qed.

Lemma collapseRuns_spaced b s :
  allChars keptByNormalizer s = true -> spaced b (Js.collapseRuns b s) = true.
Proof.
  revert b. induction s as [|c s IH]; intros b; simpl; [reflexivity|].
  intros [Hc Hs]%andb_true_iff.
  destruct (Js.isWhiteSpace c) eqn:W.
  - destruct b; simpl; auto.
  - unfold keptByNormalizer in Hc. rewrite W, orb_false_r in Hc.
    simpl. rewrite (lower_not_space _ Hc), Hc. simpl. auto.
Qed.

Lemma spaced_true_trimStart s : spaced true s = true -> Js.trimStart s = s.
Proof.
  destruct s as [|c s]; simpl; [reflexivity|].
  destruct (Ascii.eqb c " ") eqn:E; simpl; [discriminate|].
  intros [Hc _]%andb_true_iff. now rewrite (lower_not_white _ Hc).
Qed.

Lemma spaced_trimStart b s :
  spaced b s = true -> spaced true (Js.trimStart s) = true.
Proof.
  destruct b; intros H; [now rewrite spaced_true_trimStart|].
  destruct s as [|c s]; simpl in *; [reflexivity|].
  destruct (Ascii.eqb c " ") eqn:E.
  - rewrite (space_white _ E). simpl in H. now rewrite spaced_true_trimStart.
  - apply andb_true_iff in H as [Hc Hs].
    rewrite (lower_not_white _ Hc). simpl. now rewrite E, Hc.
Qed.

Lemma trimEnd_cons c s :
  Js.trimEnd (String c s) =
    match Js.trimEnd s with
    | EmptyString =>
        if Js.isWhiteSpace c then EmptyString else String c EmptyString
    | t => String c t
    end.
Proof. reflexivity. Qed.

(** After [trimEnd] a spaced string is empty or a key. *)
Lemma spaced_trimEnd b s :
  spaced b s = true ->
  Js.trimEnd s = EmptyString \/ keyFrom b (Js.trimEnd s) = true.
Proof.
  revert b. induction s as [|c s IH]; intros b H; [now left|].
  rewrite trimEnd_cons. simpl in H.
  destruct (Ascii.eqb c " ") eqn:E.
  - apply andb_true_iff in H as [Hb Hs].
    destruct (IH true Hs) as [-> | K].
    + left. now rewrite (space_white _ E).
    + right. destruct (Js.trimEnd s) eqn:T; [discriminate K|].
      cbn [keyFrom]. now rewrite E, Hb.
  - apply andb_true_iff in H as [Hc Hs]. right.
    destruct (IH false Hs) as [-> | K].
    + rewrite (lower_not_white _ Hc). simpl. now rewrite E, Hc.
    + destruct (Js.trimEnd s) eqn:T.
      * rewrite (lower_not_white _ Hc). simpl. now rewrite E, Hc.
      * cbn [keyFrom]. now rewrite E, Hc.
Qed.

Lemma normalizeIngredient_key x : isIngredientKey (normalizeIngredient x) = true.
Proof.
  unfold normalizeIngredient, Js.trim, Js.collapseWhiteSpace.
  set (t := Js.keepChars _ _).
  assert (Ht : allChars keptByNormalizer t = true) by apply keepChars_all.
  pose proof (spaced_trimStart _ _ (collapseRuns_spaced false t Ht)) as H.
  destruct (spaced_trimEnd _ _ H) as [-> | K]; [reflexivity|].
  unfold isIngredientKey. now destruct (Js.trimEnd _).
Qed.

Lemma keyFrom_spaced b s : keyFrom b s = true -> spaced b s = true.
Proof.
  revert b. induction s as [|c s IH]; intros b; simpl; [reflexivity|].
  destruct (Ascii.eqb c " ").
  - intros [-> H]%andb_true_iff. simpl. auto.
  - intros [-> H]%andb_true_iff. simpl. auto.
Qed.

Lemma spaced_kept b s : spaced b s = true -> allChars keptByNormalizer s = true.
Proof.
  revert b. induction s as [|c s IH]; intros b; simpl; [reflexivity|].
  unfold keptByNormalizer at 1.
  destruct (Ascii.eqb c " ") eqn:E.
  - intros [_ H]%andb_true_iff. rewrite (space_white _ E), orb_true_r. eauto.
  - intros [-> H]%andb_true_iff. simpl. eauto.
Qed.

Lemma spaced_toLowerCase b s : spaced b s = true -> Js.toLowerCase s = s.
Proof.
  revert b. induction s as [|c s IH]; intros b; simpl; [reflexivity|].
  destruct (Ascii.eqb c " ") eqn:E.
  - intros [_ H]%andb_true_iff. apply Ascii.eqb_eq in E as ->.
    f_equal. eauto.
  - intros [Hc H]%andb_true_iff. rewrite (lower_fixed _ Hc). f_equal. eauto.
Qed.

Lemma all_keepChars p s : allChars p s = true -> Js.keepChars p s = s.
Proof.
  induction s as [|c s IH]; simpl; [reflexivity|].
  intros [-> H]%andb_true_iff. f_equal. auto.
Qed.

Lemma spaced_collapseRuns b s :
  spaced b s = true -> Js.collapseRuns b s = s.
Proof.
  revert b. induction s as [|c s IH]; intros b; simpl; [reflexivity|].
  destruct (Ascii.eqb c " ") eqn:E.
  - intros [Hb H]%andb_true_iff. rewrite (space_white _ E).
    apply Ascii.eqb_eq in E as ->. destruct b; [discriminate|].
    f_equal. auto.
  - intros [Hc H]%andb_true_iff. rewrite (lower_not_white _ Hc).
    f_equal. auto.
Qed.

Lemma keyFrom_trimEnd b s : keyFrom b s = true -> Js.trimEnd s = s.
Proof.
  revert b. induction s as [|c s IH]; intros b; [reflexivity|].
  rewrite trimEnd_cons. simpl.
  destruct (Ascii.eqb c " ") eqn:E.
  - intros [Hb H]%andb_true_iff. rewrite (IH _ H).
    destruct s; [discriminate H | reflexivity].
  - intros [Hc H]%andb_true_iff. rewrite (IH _ H).
    destruct s; [now rewrite (lower_not_white _ Hc) | reflexivity].
Qed.

Lemma key_fixed s : isIngredientKey s = true -> normalizeIngredient s = s.
Proof.
  destruct s as [|c s]; [reflexivity|].
  unfold isIngredientKey. intros K.
  pose proof (keyFrom_spaced _ _ K) as S.
  unfold normalizeIngredient, Js.trim, Js.collapseWhiteSpace.
  change (fun c => Js.isLowerAZ c || Js.isWhiteSpace c) with keptByNormalizer.
  rewrite (spaced_toLowerCase _ _ S).
  rewrite (all_keepChars _ _ (spaced_kept _ _ S)).
  assert (S' : spaced false (String c s) = true).
  { simpl in *. destruct (Ascii.eqb c " "); [discriminate|exact S]. }
  rewrite (spaced_collapseRuns _ _ S').
  rewrite (spaced_true_trimStart _ S).
  exact (keyFrom_trimEnd _ _ K).
Qed.

Lemma white_not_lower c : Js.isWhiteSpace c = true -> Js.isLowerAZ c = false.
Proof. ascii_cases c; vm_compute; congruence. Qed.

Lemma letters_trimEnd s :
  Js.keepChars Js.isLowerAZ (Js.trimEnd s) = Js.keepChars Js.isLowerAZ s.
Proof.
  induction s as [|c s IH]; [reflexivity|].
  rewrite trimEnd_cons. cbn [Js.keepChars]. rewrite <- IH.
  destruct (Js.trimEnd s) as [|d t]; [|reflexivity].
  destruct (Js.isWhiteSpace c) eqn:W; [|reflexivity].
  now rewrite (white_not_lower _ W).
Qed.

Lemma letters_trimStart s :
  Js.keepChars Js.isLowerAZ (Js.trimStart s) = Js.keepChars Js.isLowerAZ s.
Proof.
  induction s as [|c s IH]; [reflexivity|]. cbn [Js.trimStart].
  destruct (Js.isWhiteSpace c) eqn:W; [|reflexivity].
  cbn [Js.keepChars]. now rewrite (white_not_lower _ W).
Qed.

Lemma letters_collapseRuns b s :
  Js.keepChars Js.isLowerAZ (Js.collapseRuns b s)
  = Js.keepChars Js.isLowerAZ s.
Proof.
  revert b. induction s as [|c s IH]; intros b; [reflexivity|].
  cbn [Js.collapseRuns Js.keepChars].
  destruct (Js.isWhiteSpace c) eqn:W.
  - rewrite (white_not_lower _ W). destruct b; [apply IH|].
    cbn [Js.keepChars]. change (Js.isLowerAZ " ") with false. apply IH.
  - cbn [Js.keepChars]. now rewrite IH.
Qed.

Lemma letters_kept s :
  Js.keepChars Js.isLowerAZ (Js.keepChars keptByNormalizer s)
  = Js.keepChars Js.isLowerAZ s.
Proof.
  induction s as [|c s IH]; [reflexivity|]. cbn [Js.keepChars].
  unfold keptByNormalizer at 1.
  destruct (Js.isLowerAZ c) eqn:L; cbn [orb Js.keepChars].
  - now rewrite L, IH.
  - destruct (Js.isWhiteSpace c); cbn [Js.keepChars]; [rewrite L|]; exact IH.
Qed.

Lemma normalizeIngredient_letters x :
  Js.keepChars Js.isLowerAZ (normalizeIngredient x)
  = Js.keepChars Js.isLowerAZ (Js.toLowerCase x).
Proof.
  unfold normalizeIngredient, Js.trim, Js.collapseWhiteSpace.
  change (fun c => Js.isLowerAZ c || Js.isWhiteSpace c) with keptByNormalizer.
  now rewrite letters_trimEnd, letters_trimStart, letters_collapseRuns,
    letters_kept.
Qed.

(** C8: the normaliser is a function on all strings: lower-casing, then
    keeping the letters a-z and white space, then one space for every run of
    white space, then trimming.  It maps the empty string to the empty
    string; its result is an ingredient key (letters a-z in words separated
    by one space, no space at either end) whose letters are the letters a-z
    of the lower-cased input; the keys are exactly the strings it leaves
    unchanged; and it is idempotent. *)
Theorem normalizeIngredient_idempotent :
  (forall x,
      normalizeIngredient x
      = Js.trim (Js.collapseWhiteSpace
                   (Js.keepChars keptByNormalizer (Js.toLowerCase x))))
  /\ normalizeIngredient "" = ""
  /\ normalizeIngredient "Garlic, fresh!" = "garlic fresh"
  /\ (forall x, isIngredientKey (normalizeIngredient x) = true)
  /\ (forall x,
        Js.keepChars Js.isLowerAZ (normalizeIngredient x)
        = Js.keepChars Js.isLowerAZ (Js.toLowerCase x))
  /\ (forall x, normalizeIngredient x = x <-> isIngredientKey x = true)
  /\ (forall x, normalizeIngredient (normalizeIngredient x) = normalizeIngredient x).
Proof.
  split_and!; try reflexivity.
  - exact normalizeIngredient_key.
  - exact normalizeIngredient_letters.
  - intros x. split; [|apply key_fixed].
    intros <-. apply normalizeIngredient_key.
  - intros x. apply key_fixed, normalizeIngredient_key.
Qed.

(** ** [Set] insertion order *)

Lemma setAdd_elem acc x y : y ∈ Js.setAdd acc x <-> y ∈ acc \/ y = x.
Proof.
  unfold Js.setAdd. case_bool_decide as H.
  - split; [auto|]. intros [?| ->]; assumption.
  - rewrite elem_of_app, list_elem_of_singleton. reflexivity.
Qed.

Lemma setAdd_NoDup acc x : NoDup acc -> NoDup (Js.setAdd acc x).
Proof.
  intros Hacc. unfold Js.setAdd. case_bool_decide as H; [assumption|].
  apply NoDup_app. split; [assumption|]. split; [|apply NoDup_singleton].
  intros y Hy ->%list_elem_of_singleton. contradiction.
Qed.

Lemma fold_setAdd_elem xs acc y :
  y ∈ fold_left Js.setAdd xs acc <-> y ∈ acc \/ y ∈ xs.
Proof.
  revert acc. induction xs as [|x xs IH]; intros acc; simpl.
  - rewrite elem_of_nil. tauto.
  - rewrite IH, setAdd_elem, elem_of_cons. tauto.
Qed.

Lemma fold_setAdd_NoDup xs acc :
  NoDup acc -> NoDup (fold_left Js.setAdd xs acc).
Proof.
  revert acc. induction xs as [|x xs IH]; intros acc H; simpl; [assumption|].
  apply IH, setAdd_NoDup, H.
Qed.

(** Members are not added again. *)
Lemma fold_setAdd_members xs acc :
  (forall x, x ∈ xs -> x ∈ acc) -> fold_left Js.setAdd xs acc = acc.
Proof.
  induction xs as [|x xs IH]; intros H; simpl; [reflexivity|].
  unfold Js.setAdd at 2. rewrite bool_decide_eq_true_2.
  - apply IH. intros y Hy. apply H. now right.
  - apply H. now left.
Qed.

(** New, distinct elements are appended in their order. *)
Lemma fold_setAdd_fresh xs acc :
  NoDup (acc ++ xs) -> fold_left Js.setAdd xs acc = acc ++ xs.
Proof.
  revert acc. induction xs as [|x xs IH]; intros acc H; simpl.
  - now rewrite app_nil_r.
  - apply NoDup_app in H as (Hacc & Hdis & [Hx Hxs]%NoDup_cons).
    unfold Js.setAdd at 2. rewrite bool_decide_eq_false_2.
    + rewrite IH, <- app_assoc; [reflexivity|].
      rewrite <- app_assoc. apply NoDup_app. split; [assumption|].
      split; [assumption|]. now apply NoDup_cons.
    + intros Hin. apply (Hdis x Hin). now left.
Qed.

Lemma uniq_elem xs y : y ∈ Js.uniq xs <-> y ∈ xs.
Proof. unfold Js.uniq. rewrite fold_setAdd_elem, elem_of_nil. tauto. Qed.

Lemma uniq_NoDup xs : NoDup (Js.uniq xs).
Proof. apply fold_setAdd_NoDup, NoDup_nil_2. Qed.

Lemma uniq_fixed xs : NoDup xs -> Js.uniq xs = xs.
Proof. intros H. unfold Js.uniq. now rewrite fold_setAdd_fresh. Qed.

(** ** Pantry staples *)

Lemma withPantry_elem s y : y ∈ withPantry s <-> y ∈ s \/ y ∈ pantry.
Proof. unfold withPantry. now rewrite uniq_elem, elem_of_app. Qed.

Lemma withPantry_fixed s :
  NoDup s -> (forall x, x ∈ pantry -> x ∈ s) -> withPantry s = s.
Proof.
  intros Hs Hp. unfold withPantry, Js.uniq.
  rewrite fold_left_app. fold (Js.uniq s). rewrite (uniq_fixed _ Hs).
  now apply fold_setAdd_members.
Qed.

(** C9: adding the pantry staples gives a list without duplicates that
    holds "salt" and "oil"; doing it twice changes nothing; as a set the
    result is the argument's set with the two staples, whatever the order of
    the argument; from {"salt"} and from {"oil","salt"} the set
    {"salt","oil"} results. *)
Theorem withPantry_idempotent (s : list string) :
  "salt" ∈ withPantry s /\ "oil" ∈ withPantry s
  /\ NoDup (withPantry s)
  /\ withPantry (withPantry s) = withPantry s
  /\ list_to_set (withPantry s) =@{gset string} list_to_set s ∪ {["salt"; "oil"]}
  /\ (forall s', s ≡ₚ s' -> withPantry s ≡ₚ withPantry s')
  /\ list_to_set (withPantry ["salt"]) =@{gset string} {["salt"; "oil"]}
  /\ list_to_set (withPantry ["oil"; "salt"]) =@{gset string} {["salt"; "oil"]}.
Proof.
  assert (Hset : forall t, list_to_set (withPantry t)
                           =@{gset string} list_to_set t ∪ {["salt"; "oil"]}).
  { intros t. apply set_eq. intros y.
    rewrite elem_of_list_to_set, withPantry_elem, elem_of_union.
    rewrite elem_of_list_to_set. unfold pantry.
    rewrite !elem_of_cons, elem_of_nil, elem_of_union, !elem_of_singleton.
    tauto. }
  assert (Hstaple : forall x, x ∈ pantry -> x ∈ withPantry s).
  { intros x Hx. apply withPantry_elem. now right. }
  split_and!.
  - apply Hstaple. repeat constructor.
  - apply Hstaple. repeat constructor.
  - apply uniq_NoDup.
  - apply withPantry_fixed; [apply uniq_NoDup | exact Hstaple].
  - apply Hset.
  - intros s' Hp. apply NoDup_Permutation; try apply uniq_NoDup.
    intros y. rewrite !withPantry_elem. now rewrite Hp.
  - rewrite Hset. apply set_eq. intros y.
    rewrite !elem_of_union, elem_of_list_to_set, list_elem_of_singleton,
      !elem_of_singleton. tauto.
  - rewrite Hset. apply set_eq. intros y.
    rewrite !elem_of_union, elem_of_list_to_set, !elem_of_cons, elem_of_nil,
      !elem_of_singleton. tauto.
Qed.

(** ** The search handler, step by step *)

Lemma fetchDetails_run catalog recipes s :
  fetchDetails catalog recipes s =
    (zip_with attach recipes (detailReplies catalog (calls s) recipes),
     {| subsCache := subsCache s; recipeCache := recipeCache s;
        calls := calls s ++ map (fun r => Information (id r)) recipes |}).
Proof.
  revert s. induction recipes as [|r rest IH]; intros s; simpl.
  - rewrite app_nil_r. now destruct s.
  - unfold mbind, handler_bind, axiosInformation. simpl.
    rewrite IH. simpl. now rewrite <- app_assoc.
Qed.

Lemma apiRecipes_run catalog q s ingredients :
  q_ingredients q = Some ingredients ->
  apiRecipes catalog q s =
    let final := finalIngredients ingredients in
    let key := searchCacheKey ingredients q in
    match getProperty (recipeCache s) key with
    | Own recipes => (RecipesJson recipes, s)
    | Inherited => (RecipesJsonInherited, s)
    | Undefined =>
        if negb (Js.truthy final) then (RecipesBadRequest, s)
        else
          let s1 := record (FindByIngredients final (number q)) s in
          match findByIngredients catalog (calls s) final (number q) with
          | Failed => (RecipesServerError, s1)
          | Replied data =>
              let (recipes, s2) :=
                fetchDetails catalog (map (shape (cuisine q)) data) s1 in
              let out := slice0 (number q) (rank recipes) in
              (RecipesJson out, withRecipeCache key out s2)
          end
    end.
Proof.
  intros Hq. unfold apiRecipes. rewrite Hq.
  unfold mbind, handler_bind, getRecipeCache, searchCacheKey. simpl.
  destruct (getProperty _ _); try reflexivity.
  destruct (negb _); [reflexivity|].
  unfold axiosFindByIngredients.
  destruct (findByIngredients _ _ _ _); [reflexivity|].
  destruct (fetchDetails _ _ _). reflexivity.
Qed.

Lemma hasChar_app a s t : hasChar a (s +:+ t) = hasChar a s || hasChar a t.
Proof.
  induction s as [|c s IH]; simpl; [reflexivity|].
  now rewrite IH, orb_assoc.
Qed.

(** A search key holds a bar, a property name of [Object.prototype] does
    not: the recipe cache never answers with an inherited property. *)
Lemma searchCacheKey_own ingredients q : searchCacheKey ingredients q ∉ objectPrototype.
Proof.
  intros Hin.
  assert (Hbar : hasChar "|" (searchCacheKey ingredients q) = true).
  { unfold searchCacheKey, cacheKey. rewrite !hasChar_app. simpl.
    now rewrite orb_true_r. }
  assert (Hproto : forall k, k ∈ objectPrototype -> hasChar "|" k = false).
  { intros k Hk. unfold objectPrototype in Hk.
    repeat (apply elem_of_cons in Hk as [-> | Hk]; [reflexivity|]).
    now apply elem_of_nil in Hk. }
  rewrite (Hproto _ Hin) in Hbar. discriminate.
Qed.

Lemma recipeCache_not_inherited ingredients q (cache : gmap string (list Recipe)) :
  getProperty cache (searchCacheKey ingredients q) <> Inherited.
Proof.
  unfold getProperty. destruct (cache !! _); [discriminate|].
  rewrite bool_decide_eq_false_2; [discriminate|apply searchCacheKey_own].
Qed.

Lemma recipeCache_miss ingredients q (cache : gmap string (list Recipe)) :
  cache !! searchCacheKey ingredients q = None ->
  getProperty cache (searchCacheKey ingredients q) = Undefined.
Proof.
  intros H. unfold getProperty. rewrite H.
  now rewrite bool_decide_eq_false_2 by apply searchCacheKey_own.
Qed.

(** ** The search cache key *)

Lemma lowerChar_comma c : Ascii.eqb (Js.lowerChar c) "," = Ascii.eqb c ",".
Proof. ascii_cases c; reflexivity. Qed.

Lemma split_toLowerCase s :
  Js.split "," (Js.toLowerCase s) = map Js.toLowerCase (Js.split "," s).
Proof.
  induction s as [|c s IH]; simpl; [reflexivity|].
  rewrite lowerChar_comma, IH.
  destruct (Ascii.eqb c ","); [reflexivity|].
  now destruct (Js.split "," s).
Qed.

Lemma lowerChar_idempotent c : Js.lowerChar (Js.lowerChar c) = Js.lowerChar c.
Proof. ascii_cases c; reflexivity. Qed.

Lemma toLowerCase_idempotent s :
  Js.toLowerCase (Js.toLowerCase s) = Js.toLowerCase s.
Proof.
  induction s as [|c s IH]; simpl; [reflexivity|].
  now rewrite lowerChar_idempotent, IH.
Qed.

Lemma normalizeIngredient_toLowerCase s :
  normalizeIngredient (Js.toLowerCase s) = normalizeIngredient s.
Proof. unfold normalizeIngredient. now rewrite toLowerCase_idempotent. Qed.

Lemma cleanIngredients_toLowerCase s :
  cleanIngredients (Js.toLowerCase s) = cleanIngredients s.
Proof.
  unfold cleanIngredients. rewrite split_toLowerCase, map_map.
  f_equal. apply map_ext. intros x. apply normalizeIngredient_toLowerCase.
Qed.

Lemma finalIngredients_casing i1 i2 :
  Js.toLowerCase i1 = Js.toLowerCase i2 ->
  finalIngredients i1 = finalIngredients i2.
Proof.
  intros H. unfold finalIngredients, ingSet.
  now rewrite <- (cleanIngredients_toLowerCase i1), H,
    cleanIngredients_toLowerCase.
Qed.

(** A request answered with recipes leaves them in the cache under its
    key. *)
Lemma apiRecipes_json_cached catalog q ingredients s out s1 :
  q_ingredients q = Some ingredients ->
  apiRecipes catalog q s = (RecipesJson out, s1) ->
  getProperty (recipeCache s1) (searchCacheKey ingredients q) = Own out.
Proof.
  intros Hq. rewrite (apiRecipes_run _ _ _ _ Hq). cbv zeta.
  destruct (getProperty (recipeCache s) _) eqn:G; [| discriminate |].
  - intros [= <- <-]. exact G.
  - destruct (negb _); [discriminate|].
    destruct (findByIngredients _ _ _ _); [discriminate|].
    destruct (fetchDetails _ _ _) as [recipes s2].
    intros [= <- <-]. unfold getProperty, withRecipeCache. simpl.
    now rewrite lookup_insert_eq.
Qed.

(** C1, as the code has it: two requests whose ingredient strings differ in
    casing only, with the same count and cuisine list, get the same cache
    key, and when the first is answered with recipes the second is answered
    with the same recipes from the cache, the state (cache and requests sent
    to the catalog) staying as it is. *)
Theorem cacheKey_ignores_casing (catalog : Catalog) (q1 q2 : RecipesQuery)
    (i1 i2 : string) (s : Server) :
  q_ingredients q1 = Some i1 ->
  q_ingredients q2 = Some i2 ->
  Js.toLowerCase i1 = Js.toLowerCase i2 ->
  number q1 = number q2 ->
  cuisine q1 = cuisine q2 ->
  searchCacheKey i1 q1 = searchCacheKey i2 q2
  /\ forall out s1,
       apiRecipes catalog q1 s = (RecipesJson out, s1) ->
       apiRecipes catalog q2 s1 = (RecipesJson out, s1).
Proof.
  intros H1 H2 Hcase Hn Hc.
  assert (Hkey : searchCacheKey i1 q1 = searchCacheKey i2 q2).
  { unfold searchCacheKey.
    now rewrite (finalIngredients_casing _ _ Hcase), Hn, Hc. }
  split; [exact Hkey|].
  intros out s1 Hfirst.
  pose proof (apiRecipes_json_cached _ _ _ _ _ _ H1 Hfirst) as Hcached.
  rewrite (apiRecipes_run _ _ _ _ H2). cbv zeta.
  now rewrite <- Hkey, Hcached.
Qed.

Lemma cacheKey_ignores_casing_witness :
  searchCacheKey "Egg, RICE" (query "Egg, RICE")
  = searchCacheKey "egg, rice" (query "egg, rice")
  /\ exists out s1,
       out <> []
       /\ apiRecipes eggRiceCatalog (query "Egg, RICE") initial = (RecipesJson out, s1)
       /\ apiRecipes eggRiceCatalog (query "egg, rice") s1 = (RecipesJson out, s1).
Proof.
  destruct (cacheKey_ignores_casing eggRiceCatalog (query "Egg, RICE")
              (query "egg, rice") "Egg, RICE" "egg, rice" initial
              eq_refl eq_refl eq_refl eq_refl eq_refl) as [Hkey Hcached].
  split; [exact Hkey|].
  pose (first := apiRecipes eggRiceCatalog (query "Egg, RICE") initial).
  exists (match first.1 with RecipesJson out => out | _ => [] end), first.2.
  split; [vm_compute; discriminate|].
  split; [vm_compute; reflexivity|].
  apply Hcached. vm_compute. reflexivity.
Defined.

(** C1 as stated fails: "egg,rice" and "rice,egg" hold the same tokens in
    another order, their keys differ, and after the first request the second
    one asks the catalog again and gets another answer than the first. *)
Lemma cacheKey_depends_on_order :
  Js.split "," "egg,rice" ≡ₚ Js.split "," "rice,egg"
  /\ searchCacheKey "egg,rice" (query "egg,rice") = "egg,rice,salt,oil|3|"
  /\ searchCacheKey "rice,egg" (query "rice,egg") = "rice,egg,salt,oil|3|"
  /\ searchCacheKey "egg,rice" (query "egg,rice")
     <> searchCacheKey "rice,egg" (query "rice,egg")
  /\ (apiRecipes eggRiceCatalog (query "rice,egg")
        (apiRecipes eggRiceCatalog (query "egg,rice") initial).2).1
     <> (apiRecipes eggRiceCatalog (query "egg,rice") initial).1
  /\ calls (apiRecipes eggRiceCatalog (query "rice,egg")
              (apiRecipes eggRiceCatalog (query "egg,rice") initial).2).2
     = [ FindByIngredients "egg,rice,salt,oil" 3; Information 716429;
         FindByIngredients "rice,egg,salt,oil" 3 ].
Proof.
  split_and!.
  - apply perm_swap.
  - reflexivity.
  - reflexivity.
  - vm_compute. discriminate.
  - vm_compute. discriminate.
  - vm_compute. reflexivity.
Qed.

(** ** Blank ingredients *)

Lemma join_truthy sep xs x :
  x ∈ xs -> Js.truthy x = true -> Js.truthy sep = true ->
  Js.truthy (Js.join sep xs) = true.
Proof.
  intros Hin Hx Hsep. unfold Js.join.
  destruct xs as [|y [|z zs]].
  - now apply elem_of_nil in Hin.
  - apply list_elem_of_singleton in Hin as <-. exact Hx.
  - cbn [concat]. destruct y; [|reflexivity].
    simpl. destruct sep; [discriminate|reflexivity].
Qed.

(** The pantry makes the joined ingredient list non-empty, whatever the
    input: the guard [if (!finalIngredients)] never fires. *)
Lemma finalIngredients_truthy ingredients :
  Js.truthy (finalIngredients ingredients) = true.
Proof.
  unfold finalIngredients. apply (join_truthy _ _ "salt"); try reflexivity.
  apply withPantry_elem. right. repeat constructor.
Qed.

Lemma apiRecipes_never_bad_request catalog q s :
  (apiRecipes catalog q s).1 <> RecipesBadRequest.
Proof.
  destruct (q_ingredients q) as [ingredients|] eqn:Hq.
  - rewrite (apiRecipes_run _ _ _ _ Hq). cbv zeta.
    rewrite finalIngredients_truthy. simpl.
    destruct (getProperty _ _); try discriminate.
    destruct (findByIngredients _ _ _ _); [discriminate|].
    destruct (fetchDetails _ _ _). discriminate.
  - unfold apiRecipes. rewrite Hq. discriminate.
Qed.

(** C2, the code at the failing input: for the empty ingredient string and
    an empty cache no token is left after cleaning, yet the joined list is
    "salt,oil", the answer is not the 400 and the catalog is asked for
    "salt,oil"; the same happens for every ingredient string that is blank
    after cleaning and is not cached; without the parameter the handler
    throws before it answers. *)
Theorem blank_ingredients_reach_catalog (catalog : Catalog) :
  cleanIngredients "" = []
  /\ finalIngredients "" = "salt,oil"
  /\ (apiRecipes catalog (query "") initial).1 <> RecipesBadRequest
  /\ (exists rest,
        calls (apiRecipes catalog (query "") initial).2
        = FindByIngredients "salt,oil" 3 :: rest)
  /\ (forall q ingredients s,
        q_ingredients q = Some ingredients ->
        cleanIngredients ingredients = [] ->
        recipeCache s !! searchCacheKey ingredients q = None ->
        (apiRecipes catalog q s).1 <> RecipesBadRequest
        /\ exists rest,
             calls (apiRecipes catalog q s).2
             = calls s ++ FindByIngredients "salt,oil" (number q) :: rest)
  /\ apiRecipes catalog
        {| q_ingredients := None; q_number := None; q_cuisine := None |}
        initial
      = (RecipesTypeError, initial).
Proof.
  assert (Hblank : forall q ingredients s,
             q_ingredients q = Some ingredients ->
             cleanIngredients ingredients = [] ->
             recipeCache s !! searchCacheKey ingredients q = None ->
             exists rest,
               calls (apiRecipes catalog q s).2
               = calls s ++ FindByIngredients "salt,oil" (number q) :: rest).
  { intros q ingredients s Hq Hclean Hmiss.
    assert (Hfinal : finalIngredients ingredients = "salt,oil").
    { unfold finalIngredients, ingSet. now rewrite Hclean. }
    rewrite (apiRecipes_run _ _ _ _ Hq). cbv zeta.
    rewrite (recipeCache_miss _ _ _ Hmiss), Hfinal. cbn [Js.truthy negb].
    destruct (findByIngredients _ _ _ _); [now exists []|].
    rewrite fetchDetails_run. cbn [snd calls withRecipeCache record].
    rewrite <- app_assoc. now eexists. }
  split_and!; try reflexivity.
  - apply apiRecipes_never_bad_request.
  - destruct (Hblank (query "") "" initial eq_refl eq_refl eq_refl)
      as [rest Hrest]. now exists rest.
  - intros q ingredients s Hq Hclean Hmiss. split.
    + apply apiRecipes_never_bad_request.
    + exact (Hblank q ingredients s Hq Hclean Hmiss).
Qed.

(** ** The substitution handler, step by step *)

Lemma substitutionsWith_run catalog dict ingredient s :
  Js.truthy ingredient = true ->
  substitutionsWith catalog dict (Some ingredient) s =
    let lower := Js.toLowerCase ingredient in
    match getProperty (subsCache s) lower with
    | Own subs => (SubsJson subs, s)
    | Inherited => (SubsJsonInherited, s)
    | Undefined =>
        match getProperty dict lower with
        | Own subs => (SubsJson subs, s)
        | Inherited => (SubsJsonInherited, s)
        | Undefined =>
            let s1 := record (Substitutes ingredient) s in
            match substitutes catalog (calls s) ingredient with
            | Failed => (SubsJson (noKnownSubstitutes ingredient), s1)
            | Replied data =>
                match sub_substitutes data with
                | Some subs =>
                    if noData data
                    then (SubsJson (noKnownSubstitutes ingredient), s1)
                    else (SubsJson subs, withSubsCache lower subs s1)
                | None => (SubsJson (noKnownSubstitutes ingredient), s1)
                end
            end
        end
    end.
Proof.
  intros Ht. unfold substitutionsWith. rewrite Ht. cbn [negb].
  unfold mbind, handler_bind, getSubsCache. cbv zeta.
  destruct (getProperty (subsCache s) _); try reflexivity.
  destruct (getProperty dict _); try reflexivity.
  unfold axiosSubstitutes.
  destruct (substitutes _ _ _) as [|data]; [reflexivity|].
  destruct (sub_substitutes data); [|reflexivity].
  destruct (noData data); reflexivity.
Qed.

Lemma getProperty_own {V} (o : gmap string V) key v :
  o !! key = Some v -> getProperty o key = Own v.
Proof. intros H. unfold getProperty. now rewrite H. Qed.

Lemma getProperty_undefined {V} (o : gmap string V) key :
  o !! key = None -> key ∉ objectPrototype -> getProperty o key = Undefined.
Proof.
  intros H Hp. unfold getProperty. rewrite H.
  now rewrite bool_decide_eq_false_2.
Qed.

Lemma getProperty_undefined_inv {V} (o : gmap string V) key :
  getProperty o key = Undefined -> o !! key = None /\ key ∉ objectPrototype.
Proof.
  unfold getProperty. destruct (o !! key); [discriminate|].
  case_bool_decide; [discriminate|]. now split.
Qed.

(** No key of the table of defaults is a property name of
    [Object.prototype]. *)
Lemma defaultSubs_own key subs :
  defaultSubs !! key = Some subs -> key ∉ objectPrototype.
Proof.
  intros H. unfold defaultSubs in H. apply elem_of_list_to_map_2 in H.
  repeat (apply elem_of_cons in H as [[= -> _] | H];
          [apply (bool_decide_eq_true_1 _); vm_compute; reflexivity|]).
  now apply elem_of_nil in H.
Qed.

(** ** Transport failures of the substitution catalog *)

(** C3, as the code has it: a substitution request that reaches the catalog
    tier (a non-empty ingredient whose lower-case form is found neither in
    the cache, nor in the table of defaults, nor on [Object.prototype]) and
    whose catalog request fails is answered with the
    one-element list "No known substitutes for <ingredient>"; the request
    is recorded and the substitution cache is left as it was. *)
Theorem transport_failure_no_known (catalog : Catalog) (ingredient : string)
    (s : Server) :
  Js.truthy ingredient = true ->
  subsCache s !! Js.toLowerCase ingredient = None ->
  defaultSubs !! Js.toLowerCase ingredient = None ->
  Js.toLowerCase ingredient ∉ objectPrototype ->
  substitutes catalog (calls s) ingredient = Failed ->
  exists s',
    apiSubstitutions catalog (Some ingredient) s
    = (SubsJson ["No known substitutes for " +:+ ingredient], s')
    /\ subsCache s' = subsCache s
    /\ recipeCache s' = recipeCache s
    /\ calls s' = calls s ++ [Substitutes ingredient].
Proof.
  intros Ht Hc Hd Hp Hf. exists (record (Substitutes ingredient) s).
  unfold apiSubstitutions. rewrite (substitutionsWith_run _ _ _ _ Ht).
  cbv zeta. rewrite (getProperty_undefined _ _ Hc Hp).
  rewrite (getProperty_undefined _ _ Hd Hp), Hf. auto.
Qed.

Lemma transport_failure_no_known_witness :
  exists s',
    apiSubstitutions eggRiceCatalog (Some "Kale") initial
    = (SubsJson ["No known substitutes for Kale"], s')
    /\ subsCache s' = ∅
    /\ recipeCache s' = ∅
    /\ calls s' = [Substitutes "Kale"].
Proof.
  apply (transport_failure_no_known eggRiceCatalog "Kale" initial);
    try reflexivity.
  apply (bool_decide_unpack _). vm_compute. exact I.
Defined.

(** C3 as stated fails: "Kale" is neither cached nor in the table, the
    request to the catalog fails, and the answer is not
    "Could not fetch substitutes."; the client shows the answer as it
    is. *)
Lemma transport_failure_not_could_not_fetch :
  subsCache initial !! Js.toLowerCase "Kale" = None
  /\ defaultSubs !! Js.toLowerCase "Kale" = None
  /\ substitutes eggRiceCatalog (calls initial) "Kale" = Failed
  /\ (apiSubstitutions eggRiceCatalog (Some "Kale") initial).1
     = SubsJson ["No known substitutes for Kale"]
  /\ (apiSubstitutions eggRiceCatalog (Some "Kale") initial).1
     <> SubsJson ["Could not fetch substitutes."]
  /\ Client.fetchSubstitutions "Kale"
       (Some {| Client.res_status := 200;
                Client.res_substitutes :=
                  Some ["No known substitutes for Kale"] |})
     = ["No known substitutes for Kale"].
Proof.
  split_and!; try reflexivity. vm_compute. discriminate.
Qed.

(** The other sentinel belongs to the client: it is stored when the
    client's own request to the server is rejected. *)
Lemma fetchSubstitutions_rejected ingredient :
  Client.fetchSubstitutions ingredient None = ["Could not fetch substitutes."].
Proof. reflexivity. Qed.

(** ** The order of the substitution tiers *)

(** The tiers where they are in order: for a non-empty ingredient, (1) when
    its lower-case form is a key of the substitution cache the cached list
    is the answer, nothing changes, and this holds for any table of
    defaults; (2) when it is not cached but is a key of the table, the
    table's list is the answer and neither the cache nor the catalog is
    touched; (3) when it is in neither, is no property name of
    [Object.prototype], and the catalog replies with substitutes and no
    failure status, that list is the answer and is stored in the cache
    under the lower-case ingredient. *)
Theorem substitution_tiers (catalog : Catalog) (ingredient : string)
    (s : Server) :
  Js.truthy ingredient = true ->
  (forall cached,
      subsCache s !! Js.toLowerCase ingredient = Some cached ->
      forall table,
        substitutionsWith catalog table (Some ingredient) s
        = (SubsJson cached, s))
  /\ (forall subs,
        subsCache s !! Js.toLowerCase ingredient = None ->
        defaultSubs !! Js.toLowerCase ingredient = Some subs ->
        apiSubstitutions catalog (Some ingredient) s = (SubsJson subs, s))
  /\ (forall data subs,
        subsCache s !! Js.toLowerCase ingredient = None ->
        defaultSubs !! Js.toLowerCase ingredient = None ->
        Js.toLowerCase ingredient ∉ objectPrototype ->
        substitutes catalog (calls s) ingredient = Replied data ->
        sub_status data <> Some "failure" ->
        sub_substitutes data = Some subs ->
        apiSubstitutions catalog (Some ingredient) s
        = (SubsJson subs,
           {| subsCache := <[Js.toLowerCase ingredient := subs]> (subsCache s);
              recipeCache := recipeCache s;
              calls := calls s ++ [Substitutes ingredient] |})).
Proof.
  intros Ht. split_and!.
  - intros cached Hc table. rewrite (substitutionsWith_run _ _ _ _ Ht).
    cbv zeta. now rewrite (getProperty_own _ _ _ Hc).
  - intros subs Hc Hd. unfold apiSubstitutions.
    rewrite (substitutionsWith_run _ _ _ _ Ht). cbv zeta.
    rewrite (getProperty_undefined _ _ Hc (defaultSubs_own _ _ Hd)).
    now rewrite (getProperty_own _ _ _ Hd).
  - intros data subs Hc Hd Hp Hr Hs Hsubs. unfold apiSubstitutions.
    rewrite (substitutionsWith_run _ _ _ _ Ht). cbv zeta.
    rewrite (getProperty_undefined _ _ Hc Hp).
    rewrite (getProperty_undefined _ _ Hd Hp), Hr, Hsubs.
    unfold noData. rewrite Hsubs.
    rewrite bool_decide_eq_false_2 by exact Hs.
    rewrite bool_decide_eq_true_2 by eauto. reflexivity.
Qed.

Lemma substitution_tiers_witness :
  defaultSubs !! "milk" = Some ["oat milk"; "almond milk"; "soy milk"]
  /\ apiSubstitutions seitanCatalog (Some "Milk") milkCached
     = (SubsJson ["lactose-free milk"], milkCached)
  /\ apiSubstitutions seitanCatalog (Some "Milk") initial
     = (SubsJson ["oat milk"; "almond milk"; "soy milk"], initial)
  /\ apiSubstitutions seitanCatalog (Some "Beef Jerky") initial
     = (SubsJson ["1 cup = 1 cup seitan"],
        {| subsCache := {[ "beef jerky" := ["1 cup = 1 cup seitan"] ]};
           recipeCache := ∅;
           calls := [Substitutes "Beef Jerky"] |}).
Proof.
  split; [reflexivity|].
  split; [|split].
  - destruct (substitution_tiers seitanCatalog "Milk" milkCached eq_refl)
      as (Hcache & _ & _).
    exact (Hcache ["lactose-free milk"] eq_refl defaultSubs).
  - destruct (substitution_tiers seitanCatalog "Milk" initial eq_refl)
      as (_ & Htable & _).
    exact (Htable _ eq_refl eq_refl).
  - destruct (substitution_tiers seitanCatalog "Beef Jerky" initial eq_refl)
      as (_ & _ & Hcatalog).
    apply (Hcatalog {| sub_status := Some "success";
                       sub_substitutes := Some ["1 cup = 1 cup seitan"] |});
      try reflexivity.
    + apply (bool_decide_unpack _). vm_compute. exact I.
    + discriminate.
Defined.

Lemma prototype_names_not_defaults key :
  key ∈ objectPrototype -> defaultSubs !! key = None.
Proof.
  intros H. unfold objectPrototype in H.
  repeat (apply elem_of_cons in H as [-> | H]; [reflexivity|]).
  now apply elem_of_nil in H.
Qed.

(** C5, the code at the failing input: on a server that has cached
    nothing, "constructor" is neither a key of the cache nor of the
    dictionary, so that the claim sends the request for "Constructor" to the
    catalog; the handler answers it at the cache test, with the inherited
    property and no list, and asks neither the dictionary nor the catalog,
    whatever the catalog would reply.  The same holds in every state for
    every ingredient whose lower-case form is a property name of
    [Object.prototype] and is no key of the cache, while an ingredient such
    as "Beef Jerky", in neither tier as well, is sent to the catalog. *)
Theorem inherited_key_skips_tiers (catalog : Catalog) :
  subsCache initial !! "constructor" = None
  /\ defaultSubs !! "constructor" = None
  /\ apiSubstitutions catalog (Some "Constructor") initial
     = (SubsJsonInherited, initial)
  /\ calls (apiSubstitutions catalog (Some "Constructor") initial).2 = []
  /\ (forall ingredient s,
        Js.toLowerCase ingredient ∈ objectPrototype ->
        subsCache s !! Js.toLowerCase ingredient = None ->
        defaultSubs !! Js.toLowerCase ingredient = None
        /\ apiSubstitutions catalog (Some ingredient) s
           = (SubsJsonInherited, s))
  /\ subsCache initial !! "beef jerky" = None
  /\ defaultSubs !! "beef jerky" = None
  /\ calls (apiSubstitutions catalog (Some "Beef Jerky") initial).2
     = [Substitutes "Beef Jerky"].
Proof.
  assert (Hgeneral : forall ingredient s,
             Js.toLowerCase ingredient ∈ objectPrototype ->
             subsCache s !! Js.toLowerCase ingredient = None ->
             apiSubstitutions catalog (Some ingredient) s
             = (SubsJsonInherited, s)).
  { intros ingredient s Hp Hc.
    assert (Ht : Js.truthy ingredient = true).
    { destruct ingredient; [|reflexivity]. cbn in Hp.
      apply (bool_decide_pack _) in Hp. vm_compute in Hp. destruct Hp. }
    unfold apiSubstitutions. rewrite (substitutionsWith_run _ _ _ _ Ht).
    cbv zeta. unfold getProperty at 1. rewrite Hc.
    now rewrite bool_decide_eq_true_2. }
  assert (Hconstructor : Js.toLowerCase "Constructor" ∈ objectPrototype).
  { apply (bool_decide_unpack _). vm_compute. exact I. }
  split_and!;
    [reflexivity|reflexivity
    |exact (Hgeneral "Constructor" initial Hconstructor eq_refl)
    |now rewrite (Hgeneral "Constructor" initial Hconstructor eq_refl)
    | |reflexivity|reflexivity| ].
  - intros ingredient s Hp Hc. split; [|now apply Hgeneral].
    now apply prototype_names_not_defaults.
  - unfold apiSubstitutions.
    rewrite (substitutionsWith_run _ _ "Beef Jerky" initial eq_refl).
    cbv zeta.
    assert (Hown : Js.toLowerCase "Beef Jerky" ∉ objectPrototype).
    { apply (bool_decide_unpack _). vm_compute. exact I. }
    assert (Hc : subsCache initial !! Js.toLowerCase "Beef Jerky" = None)
      by reflexivity.
    assert (Hd : defaultSubs !! Js.toLowerCase "Beef Jerky" = None)
      by reflexivity.
    rewrite (getProperty_undefined _ _ Hc Hown).
    rewrite (getProperty_undefined _ _ Hd Hown).
    destruct (substitutes catalog (calls initial) "Beef Jerky") as [|data];
      [reflexivity|].
    destruct (sub_substitutes data); [|reflexivity].
    now destruct (noData data).
Qed.

(** ** Sorting *)

Section Sort.

Context {A : Type}.
Variable compare : A -> A -> Z.

Lemma insertSorted_perm x xs : insertSorted compare x xs ≡ₚ x :: xs.
Proof.
  induction xs as [|y xs IH]; simpl; [reflexivity|].
  destruct (0 <? compare x y); [|reflexivity].
  rewrite IH. apply perm_swap.
Qed.

Lemma sort_perm xs : sort compare xs ≡ₚ xs.
Proof.
  induction xs as [|x xs IH]; simpl; [reflexivity|].
  now rewrite insertSorted_perm, IH.
Qed.

Lemma sort_length xs : length (sort compare xs) = length xs.
Proof. apply Permutation_length, sort_perm. Qed.

(** Elements that the comparator never puts one after the other keep
    their order. *)
Section Stable.

Variable p : A -> bool.
Hypothesis tie : forall a b, p a = true -> p b = true -> ~ 0 < compare a b.

Lemma insertSorted_filter x xs :
  List.filter p (insertSorted compare x xs) = List.filter p (x :: xs).
Proof.
  induction xs as [|y xs IH]; [reflexivity|].
  cbn [insertSorted]. destruct (0 <? compare x y) eqn:E; [|reflexivity].
  apply Z.ltb_lt in E. cbn [List.filter] in *. rewrite IH.
  destruct (p x) eqn:Px, (p y) eqn:Py; try reflexivity.
  destruct (tie x y Px Py E).
Qed.

Lemma sort_filter xs : List.filter p (sort compare xs) = List.filter p xs.
Proof.
  induction xs as [|x xs IH]; [reflexivity|].
  cbn [sort foldr]. rewrite insertSorted_filter. cbn [List.filter].
  fold (sort compare xs). now rewrite IH.
Qed.

End Stable.

(** An order that agrees with the comparator. *)
Section Sorted.

Variable R : A -> A -> Prop.
Hypothesis R_trans : forall a b c, R a b -> R b c -> R a c.
Hypothesis after : forall x y, 0 < compare x y -> R y x.
Hypothesis not_after : forall x y, ~ 0 < compare x y -> R x y.

Lemma insertSorted_sorted x xs :
  StronglySorted R xs -> StronglySorted R (insertSorted compare x xs).
Proof.
  induction 1 as [|y xs Hs IH Hy]; simpl.
  - constructor; constructor.
  - destruct (0 <? compare x y) eqn:E.
    + apply Z.ltb_lt in E. constructor; [exact IH|].
      rewrite insertSorted_perm. constructor; [now apply after|exact Hy].
    + assert (Hxy : R x y) by (apply not_after; rewrite <- Z.ltb_lt; congruence).
      constructor; [now constructor|].
      constructor; [exact Hxy|].
      eapply Forall_impl; [exact Hy|]. intros z Hz.
      exact (R_trans _ _ _ Hxy Hz).
Qed.

Lemma sort_sorted xs : StronglySorted R (sort compare xs).
Proof.
  induction xs as [|x xs IH]; simpl; [constructor|].
  now apply insertSorted_sorted.
Qed.

End Sorted.

End Sort.

(** ** Ranking *)

Lemma compareRecipes_after x y : 0 < compareRecipes x y -> precedes y x.
Proof.
  unfold compareRecipes, precedes. cbv zeta.
  destruct (Z.eqb_spec (score y) (score x)) as [E|E]; [|lia].
  destruct (matchesCuisine y), (matchesCuisine x); simpl; intros H;
    try lia; right; auto.
Qed.

Lemma compareRecipes_not_after x y : ~ 0 < compareRecipes x y -> precedes x y.
Proof.
  unfold compareRecipes, precedes. cbv zeta.
  destruct (Z.eqb_spec (score y) (score x)) as [E|E]; [|lia].
  destruct (matchesCuisine y), (matchesCuisine x); simpl; intros H;
    try lia; right; auto.
Qed.

Lemma precedes_trans a b c : precedes a b -> precedes b c -> precedes a c.
Proof.
  unfold precedes.
  destruct (matchesCuisine a), (matchesCuisine b), (matchesCuisine c);
    intuition (try congruence; try lia).
Qed.

Lemma sameRank_tie sc mc a b :
  sameRank sc mc a = true -> sameRank sc mc b = true ->
  ~ 0 < compareRecipes a b.
Proof.
  unfold sameRank, compareRecipes. cbv zeta.
  intros [Ha Ma]%andb_true_iff [Hb Mb]%andb_true_iff.
  apply Z.eqb_eq in Ha, Hb. apply Bool.eqb_prop in Ma, Mb.
  rewrite Ha, Hb, Ma, Mb, Z.eqb_refl. lia.
Qed.

Lemma sameRank_self a : sameRank (score a) (matchesCuisine a) a = true.
Proof. unfold sameRank. now rewrite Z.eqb_refl, Bool.eqb_reflx. Qed.

Lemma precedes_antisym a b sc mc :
  precedes a b -> precedes b a ->
  sameRank sc mc a = true -> sameRank sc mc b = true.
Proof.
  unfold precedes, sameRank.
  intros Hab Hba [Hs Hm]%andb_true_iff.
  apply Z.eqb_eq in Hs. apply Bool.eqb_prop in Hm.
  apply andb_true_iff. rewrite Z.eqb_eq.
  destruct (matchesCuisine a), (matchesCuisine b), mc;
    simpl in *; intuition (try congruence; try lia).
Qed.

Lemma filter_head {A} (p : A -> bool) x xs ys :
  p x = true -> List.filter p (x :: xs) = List.filter p ys -> x ∈ ys.
Proof.
  intros Hp H. simpl in H. rewrite Hp in H.
  apply list_elem_of_In. apply (proj1 (filter_In p x ys)).
  rewrite <- H. now left.
Qed.

(** A sorted list is determined by the order inside its classes: whatever
    stable sorting algorithm the engine uses, it returns [rank recipes]. *)
Lemma stable_sorted_unique (xs ys : list Recipe) :
  StronglySorted precedes xs -> StronglySorted precedes ys ->
  (forall sc mc,
      List.filter (sameRank sc mc) xs = List.filter (sameRank sc mc) ys) ->
  xs = ys.
Proof.
  intros Hxs. revert ys. induction Hxs as [|a xs Hxs IH Ha]; intros ys Hys H.
  - destruct ys as [|b ys]; [reflexivity|].
    specialize (H (score b) (matchesCuisine b)). simpl in H.
    now rewrite sameRank_self in H.
  - destruct Hys as [|b ys Hys Hb].
    { specialize (H (score a) (matchesCuisine a)). simpl in H.
      now rewrite sameRank_self in H. }
    assert (Hclass : sameRank (score a) (matchesCuisine a) b = true).
    { destruct (sameRank (score a) (matchesCuisine a) b) eqn:E; [reflexivity|].
      assert (Hain : a ∈ ys).
      { pose proof (filter_head _ a xs (b :: ys) (sameRank_self a)
                      (H (score a) (matchesCuisine a))) as Hin.
        apply elem_of_cons in Hin as [-> | Hin]; [|exact Hin].
        now rewrite sameRank_self in E. }
      assert (Hbin : b ∈ xs).
      { pose proof (filter_head _ b ys (a :: xs) (sameRank_self b)
                      (eq_sym (H (score b) (matchesCuisine b)))) as Hin.
        apply elem_of_cons in Hin as [-> | Hin]; [|exact Hin].
        now rewrite sameRank_self in E. }
      rewrite Forall_forall in Ha, Hb.
      pose proof (precedes_antisym a b _ _ (Ha b Hbin) (Hb a Hain)
                    (sameRank_self a)) as Hsame.
      congruence. }
    assert (a = b) as <-.
    { specialize (H (score a) (matchesCuisine a)). simpl in H.
      rewrite sameRank_self, Hclass in H. congruence. }
    f_equal. apply IH; [exact Hys|].
    intros sc mc. specialize (H sc mc). simpl in H.
    destruct (sameRank sc mc a); congruence.
Qed.

Lemma sorted_app_precedes {A} (R : A -> A -> Prop) xs ys :
  StronglySorted R (xs ++ ys) ->
  forall a b, a ∈ xs -> b ∈ ys -> R a b.
Proof.
  induction xs as [|x xs IH]; intros Hs a b Ha Hb.
  - now apply elem_of_nil in Ha.
  - cbn [app] in Hs. apply StronglySorted_inv in Hs as [Hs Hx].
    apply elem_of_cons in Ha as [-> | Ha]; [|now apply IH].
    rewrite Forall_forall in Hx. apply Hx, elem_of_app. now right.
Qed.

(** C4: [rank] returns the candidates it was given; in its result a
    candidate stands before every candidate with a smaller difference of
    the number of used and the number of missed ingredients and, at equal
    differences, a candidate that matches the cuisine before one that does
    not; the candidates that tie on the difference and on the cuisine flag
    stand in the order they had in the input; and no other list is sorted
    and stable in this way.  Five candidates with the differences -1, 3, 1,
    3 and 1 are ranked by difference, then by flag, then by position. *)
Theorem rank_stable_sort (recipes : list Recipe) :
  rank recipes ≡ₚ recipes
  /\ StronglySorted precedes (rank recipes)
  /\ (forall (sc : Z) (mc : bool),
        List.filter (sameRank sc mc) (rank recipes)
        = List.filter (sameRank sc mc) recipes)
  /\ (forall out,
        StronglySorted precedes out ->
        (forall sc mc,
            List.filter (sameRank sc mc) out
            = List.filter (sameRank sc mc) recipes) ->
        out = rank recipes)
  /\ (forall before a between b after,
        rank recipes = before ++ a :: between ++ b :: after ->
        let overlapA :=
          Z.of_nat (length (usedIngredients a))
          - Z.of_nat (length (missedIngredients a)) in
        let overlapB :=
          Z.of_nat (length (usedIngredients b))
          - Z.of_nat (length (missedIngredients b)) in
        overlapB < overlapA
        \/ (overlapA = overlapB
            /\ (matchesCuisine a = true \/ matchesCuisine b = false)))
  /\ (forall (overlap : Z) (mc : bool),
        let tied r :=
          (Z.of_nat (length (usedIngredients r))
           - Z.of_nat (length (missedIngredients r)) =? overlap)
          && Bool.eqb (matchesCuisine r) mc in
        List.filter tied (rank recipes) = List.filter tied recipes)
  /\ rank [candidate 1 1 2 false; candidate 2 3 0 false;
           candidate 3 2 1 true; candidate 4 3 0 true; candidate 5 2 1 true]
     = [candidate 4 3 0 true; candidate 2 3 0 false;
        candidate 3 2 1 true; candidate 5 2 1 true; candidate 1 1 2 false].
Proof.
  assert (Hsorted : StronglySorted precedes (rank recipes)).
  { apply sort_sorted.
    - exact precedes_trans.
    - exact compareRecipes_after.
    - exact compareRecipes_not_after. }
  assert (Hstable : forall sc mc,
             List.filter (sameRank sc mc) (rank recipes)
             = List.filter (sameRank sc mc) recipes).
  { intros sc mc. apply sort_filter, sameRank_tie. }
  split_and!.
  - apply sort_perm.
  - exact Hsorted.
  - exact Hstable.
  - intros out Hout Hclasses. apply stable_sorted_unique; try assumption.
    intros sc mc. now rewrite Hclasses, Hstable.
  - intros before a between b after E. cbv zeta. rewrite E in Hsorted.
    replace (before ++ a :: between ++ b :: after)
      with ((before ++ [a]) ++ between ++ b :: after) in Hsorted
      by now rewrite <- app_assoc.
    apply (sorted_app_precedes _ _ _ Hsorted a b).
    + apply elem_of_app. right. now left.
    + apply elem_of_app. right. now left.
  - intros overlap mc. exact (Hstable overlap mc).
  - vm_compute. reflexivity.
Qed.

(** ** The detail lookups *)

Lemma detailReplies_length catalog history recipes :
  length (detailReplies catalog history recipes) = length recipes.
Proof.
  revert history. induction recipes as [|r rest IH]; intros history; simpl;
    [reflexivity|]. now rewrite IH.
Qed.

(** Each reply is the catalog's answer to the request for that recipe. *)
Lemma detailReplies_lookup catalog history recipes i reply :
  detailReplies catalog history recipes !! i = Some reply ->
  exists r history',
    recipes !! i = Some r /\ reply = information catalog history' (id r).
Proof.
  revert history i. induction recipes as [|r rest IH]; intros history i;
    simpl; [now rewrite lookup_nil|].
  destruct i as [|i]; simpl.
  - intros [= <-]. now exists r, history.
  - apply IH.
Qed.

Lemma resolveSourceUrl_cases reply :
  Js.truthy (resolveSourceUrl reply) = true
  /\ (resolveSourceUrl reply = "#"
      \/ reply = Replied (Some (resolveSourceUrl reply))).
Proof.
  destruct reply as [|[url|]]; simpl; auto.
  destruct (Js.truthy url) eqn:E; auto.
Qed.

Lemma slice0_subset {A} n (xs : list A) x : x ∈ slice0 n xs -> x ∈ xs.
Proof.
  unfold slice0. destruct (n <? 0);
    intros (i & Hi & _)%elem_of_take; eapply list_elem_of_lookup_2; eauto.
Qed.

Lemma slice0_all {A} n (xs : list A) :
  Z.of_nat (length xs) <= n -> slice0 n xs = xs.
Proof.
  intros H. unfold slice0. destruct (Z.ltb_spec n 0); [lia|].
  apply take_ge. lia.
Qed.

Lemma slice0_length {A B} n (xs : list A) (ys : list B) :
  length xs = length ys -> length (slice0 n xs) = length (slice0 n ys).
Proof.
  intros H. unfold slice0. destruct (n <? 0); rewrite !length_take, H;
    reflexivity.
Qed.

(** The answer on the path through the catalog. *)
Lemma apiRecipes_fetched catalog q ingredients s data :
  q_ingredients q = Some ingredients ->
  recipeCache s !! searchCacheKey ingredients q = None ->
  findByIngredients catalog (calls s) (finalIngredients ingredients) (number q)
  = Replied data ->
  let candidates := map (shape (cuisine q)) data in
  let sent := FindByIngredients (finalIngredients ingredients) (number q) in
  let replies := detailReplies catalog (calls s ++ [sent]) candidates in
  let out := slice0 (number q) (rank (zip_with attach candidates replies)) in
  apiRecipes catalog q s =
    (RecipesJson out,
     {| subsCache := subsCache s;
        recipeCache := <[searchCacheKey ingredients q := out]> (recipeCache s);
        calls := (calls s ++ [sent])
                 ++ map (fun r => Information (id r)) candidates |}).
Proof.
  intros Hq Hmiss Hreply. cbv zeta.
  rewrite (apiRecipes_run _ _ _ _ Hq). cbv zeta.
  rewrite (recipeCache_miss _ _ _ Hmiss), finalIngredients_truthy, Hreply.
  cbn [negb].
  now rewrite fetchDetails_run.
Qed.

Lemma zip_with_attach_lookup candidates replies i r reply :
  candidates !! i = Some r -> replies !! i = Some reply ->
  zip_with attach candidates replies !! i = Some (attach r reply).
Proof. intros Hc Hr. rewrite lookup_zip_with, Hc. simpl. now rewrite Hr. Qed.

(** C6: on the path through the catalog the request is answered with the
    ranked, truncated candidates, each with the source URL of its own
    lookup; as many are returned as when no lookup fails, ranking keeps
    every candidate, and a candidate whose lookup fails gets "#".  With
    three candidates, a count of at least three and other
    lookups that give a URL, three candidates are returned and the one whose
    lookup failed is the only one with "#". *)
Theorem detail_failure_isolated (catalog : Catalog) (q : RecipesQuery)
    (ingredients : string) (s : Server) (data : list RawRecipe) :
  q_ingredients q = Some ingredients ->
  recipeCache s !! searchCacheKey ingredients q = None ->
  findByIngredients catalog (calls s) (finalIngredients ingredients) (number q)
  = Replied data ->
  let candidates := map (shape (cuisine q)) data in
  let sent := FindByIngredients (finalIngredients ingredients) (number q) in
  let replies := detailReplies catalog (calls s ++ [sent]) candidates in
  let enriched := zip_with attach candidates replies in
  let out := slice0 (number q) (rank enriched) in
  (apiRecipes catalog q s).1 = RecipesJson out
  /\ length enriched = length data
  /\ length out = length (slice0 (number q) data)
  /\ rank enriched ≡ₚ enriched
  /\ (forall i r,
        candidates !! i = Some r -> replies !! i = Some Failed ->
        enriched !! i = Some (setSourceUrl "#" r))
  /\ (length data = 3%nat -> 3 <= number q ->
      forall i r,
        candidates !! i = Some r -> replies !! i = Some Failed ->
        (forall j, j <> i -> (j < 3)%nat ->
           exists url, replies !! j = Some (Replied (Some url))
                       /\ Js.truthy url = true /\ url <> "#") ->
        length out = 3%nat
        /\ filter (fun c => sourceUrl c = Some "#") out = [setSourceUrl "#" r]).
Proof.
  intros Hq Hmiss Hreply candidates sent replies enriched out.
  assert (Hlen : length enriched = length data).
  { unfold enriched. rewrite length_zip_with_l_eq; unfold candidates.
    - apply length_map.
    - unfold replies. now rewrite detailReplies_length. }
  split_and!.
  - now rewrite (apiRecipes_fetched _ _ _ _ _ Hq Hmiss Hreply).
  - exact Hlen.
  - apply slice0_length. unfold rank. now rewrite sort_length.
  - apply sort_perm.
  - intros i r Hc Hr. apply (zip_with_attach_lookup _ _ _ _ _ Hc Hr).
  - intros H3 Hn i r Hc Hr Hothers.
    assert (Hout : out = rank enriched).
    { unfold out. apply slice0_all. unfold rank. rewrite sort_length. lia. }
    split.
    { rewrite Hout. unfold rank. rewrite sort_length. congruence. }
    apply Permutation_singleton_r. rewrite Hout.
    unfold rank. rewrite (sort_perm compareRecipes enriched).
    assert (Hrl : length replies = 3%nat).
    { unfold replies. rewrite detailReplies_length. unfold candidates.
      rewrite length_map. exact H3. }
    assert (Hcl : length candidates = 3%nat).
    { unfold candidates. rewrite length_map. exact H3. }
    unfold enriched. clearbody replies candidates. clear - Hc Hr Hothers Hrl Hcl.
    destruct candidates as [|c0 [|c1 [|c2 [|]]]]; try discriminate.
    destruct replies as [|r0 [|r1 [|r2 [|]]]]; try discriminate.
    assert (Hurl : forall url, Js.truthy url = true -> url <> "#" ->
              sourceUrl (attach c0 (Replied (Some url))) <> Some "#"
              /\ sourceUrl (attach c1 (Replied (Some url))) <> Some "#"
              /\ sourceUrl (attach c2 (Replied (Some url))) <> Some "#").
    { intros url Ht Hne. simpl. rewrite Ht. split_and!; congruence. }
    destruct i as [|[|[|i]]]; simpl in Hc, Hr; try discriminate;
      injection Hc as <-; injection Hr as ->.
    + destruct (Hothers 1%nat) as (u1 & [= ->] & T1 & N1); [lia..|].
      destruct (Hothers 2%nat) as (u2 & [= ->] & T2 & N2); [lia..|].
      destruct (Hurl u1 T1 N1) as (_ & H1 & _).
      destruct (Hurl u2 T2 N2) as (_ & _ & H2).
      cbn [zip_with]. rewrite filter_cons_True by reflexivity.
      rewrite filter_cons_False by exact H1.
      rewrite filter_cons_False by exact H2. reflexivity.
    + destruct (Hothers 0%nat) as (u0 & [= ->] & T0 & N0); [lia..|].
      destruct (Hothers 2%nat) as (u2 & [= ->] & T2 & N2); [lia..|].
      destruct (Hurl u0 T0 N0) as (H0 & _ & _).
      destruct (Hurl u2 T2 N2) as (_ & _ & H2).
      cbn [zip_with]. rewrite filter_cons_False by exact H0.
      rewrite filter_cons_True by reflexivity.
      rewrite filter_cons_False by exact H2. reflexivity.
    + destruct (Hothers 0%nat) as (u0 & [= ->] & T0 & N0); [lia..|].
      destruct (Hothers 1%nat) as (u1 & [= ->] & T1 & N1); [lia..|].
      destruct (Hurl u0 T0 N0) as (H0 & _ & _).
      destruct (Hurl u1 T1 N1) as (_ & H1 & _).
      cbn [zip_with]. rewrite filter_cons_False by exact H0.
      rewrite filter_cons_False by exact H1.
      rewrite filter_cons_True by reflexivity. reflexivity.
Qed.

Lemma detail_failure_isolated_witness :
  exists out,
    (apiRecipes threeRecipesCatalog (query "egg,rice") initial).1
    = RecipesJson out
    /\ length out = 3%nat
    /\ filter (fun c => sourceUrl c = Some "#") out
       = [setSourceUrl "#" (shape [] (rawRecipe 12 "Rice pudding"))].
Proof.
  destruct (detail_failure_isolated threeRecipesCatalog (query "egg,rice")
              "egg,rice" initial threeRecipes eq_refl eq_refl eq_refl)
    as (Hout & _ & _ & _ & _ & Hthree).
  eexists. split; [exact Hout|].
  apply (Hthree eq_refl (Z.le_refl 3) 1%nat); try reflexivity.
  intros [|[|[|j]]] Hne Hlt; try lia;
    (eexists; split; [reflexivity|]; split; [reflexivity|discriminate]).
Defined.

(** ** Source URLs *)

(** C10: on the path through the catalog every candidate is built with a
    null source URL, and every recipe of the answer, which is also what the
    cache then holds under the key, has a non-empty string as source URL:
    "#", or the URL with which the catalog replied to the request for that
    recipe's details. *)
Theorem sourceUrl_assigned (catalog : Catalog) (q : RecipesQuery)
    (ingredients : string) (s : Server) (data : list RawRecipe) :
  q_ingredients q = Some ingredients ->
  recipeCache s !! searchCacheKey ingredients q = None ->
  findByIngredients catalog (calls s) (finalIngredients ingredients) (number q)
  = Replied data ->
  Forall (fun c => sourceUrl c = None) (map (shape (cuisine q)) data)
  /\ exists out s',
       apiRecipes catalog q s = (RecipesJson out, s')
       /\ recipeCache s' !! searchCacheKey ingredients q = Some out
       /\ Forall (fun r =>
                    exists url,
                      sourceUrl r = Some url
                      /\ url <> ""
                      /\ (url = "#"
                          \/ exists history,
                               information catalog history (id r)
                               = Replied (Some url)))
            out.
Proof.
  intros Hq Hmiss Hreply. split.
  { apply Forall_forall. intros c (d & -> & _)%list_elem_of_fmap. reflexivity. }
  pose proof (apiRecipes_fetched _ _ _ _ _ Hq Hmiss Hreply) as Hrun.
  cbv zeta in Hrun. eexists _, _. split; [exact Hrun|].
  split; [apply lookup_insert_eq|].
  apply Forall_forall. intros r Hr.
  apply slice0_subset in Hr. unfold rank in Hr. rewrite sort_perm in Hr.
  apply list_elem_of_lookup in Hr as [i Hi].
  apply lookup_zip_with_Some in Hi as (c & reply & -> & Hc & Hrep).
  apply detailReplies_lookup in Hrep as (c' & history & Hc' & ->).
  assert (c' = c) as -> by congruence.
  destruct (resolveSourceUrl_cases (information catalog history (id c)))
    as [Ht Hcases].
  exists (resolveSourceUrl (information catalog history (id c))).
  split_and!.
  - reflexivity.
  - intros E. rewrite E in Ht. discriminate.
  - destruct Hcases as [E|E]; [now left|]. right. exists history. exact E.
Qed.

Lemma sourceUrl_assigned_witness :
  exists out s',
    apiRecipes threeRecipesCatalog (query "egg,rice") initial
    = (RecipesJson out, s')
    /\ recipeCache s' !! "egg,rice,salt,oil|3|" = Some out
    /\ map sourceUrl out
       = [ Some "https://example.org/recipe"; Some "#";
           Some "https://example.org/recipe" ].
Proof.
  destruct (sourceUrl_assigned threeRecipesCatalog (query "egg,rice")
              "egg,rice" initial threeRecipes eq_refl eq_refl eq_refl)
    as (_ & out & s' & Hrun & Hcache & _).
  exists out, s'. split; [exact Hrun|]. split; [exact Hcache|].
  vm_compute in Hrun. injection Hrun as <- _. reflexivity.
Defined.

(** ** First-seen order *)

Lemma fold_setAdd_first_seen xs acc :
  fold_left Js.setAdd xs acc
  = acc ++ filter (fun y => y ∉ acc) (Js.uniq xs).
Proof.
  induction xs as [|x xs IH] using rev_ind.
  - simpl. now rewrite app_nil_r.
  - unfold Js.uniq. rewrite !fold_left_app. cbn [fold_left].
    fold (Js.uniq xs). rewrite IH.
    destruct (decide (x ∈ acc)) as [Hacc|Hacc].
    + unfold Js.setAdd at 1. rewrite bool_decide_eq_true_2
        by (apply elem_of_app; now left).
      f_equal. unfold Js.setAdd. case_bool_decide; [reflexivity|].
      rewrite filter_app, (filter_singleton_False _ x []), app_nil_r; auto.
    + destruct (decide (x ∈ Js.uniq xs)) as [Hu|Hu].
      * unfold Js.setAdd. rewrite !bool_decide_eq_true_2; auto.
        apply elem_of_app. right. now apply list_elem_of_filter.
      * unfold Js.setAdd. rewrite !bool_decide_eq_false_2; auto.
        -- rewrite filter_app, (filter_singleton_True _ x []), app_assoc; auto.
        -- rewrite elem_of_app, list_elem_of_filter. tauto.
Qed.

(** The first occurrence of a value stays, the later ones go. *)
Lemma uniq_cons x xs :
  Js.uniq (x :: xs) = x :: filter (fun y => y <> x) (Js.uniq xs).
Proof.
  unfold Js.uniq at 1. cbn [fold_left]. unfold Js.setAdd at 2.
  rewrite bool_decide_eq_false_2 by apply not_elem_of_nil.
  rewrite fold_setAdd_first_seen. cbn [app]. f_equal.
  apply list_filter_iff. intros y. now rewrite list_elem_of_singleton.
Qed.

(** ** Trimming *)

Lemma trimStart_head s :
  match Js.trimStart s with
  | EmptyString => True
  | String c _ => Js.isWhiteSpace c = false
  end.
Proof.
  induction s as [|c s IH]; simpl; [exact I|].
  destruct (Js.isWhiteSpace c) eqn:E; [exact IH|exact E].
Qed.

Lemma trimEnd_head c s :
  Js.isWhiteSpace c = false ->
  Js.trimEnd (String c s) = String c (Js.trimEnd s).
Proof. intros E. rewrite trimEnd_cons, E. now destruct (Js.trimEnd s). Qed.

Lemma trimEnd_idempotent s : Js.trimEnd (Js.trimEnd s) = Js.trimEnd s.
Proof.
  induction s as [|c s IH]; [reflexivity|].
  rewrite trimEnd_cons. destruct (Js.trimEnd s) as [|d t] eqn:T.
  - destruct (Js.isWhiteSpace c) eqn:E; [reflexivity|].
    simpl. now rewrite E.
  - rewrite trimEnd_cons, IH. reflexivity.
Qed.

Lemma trim_idempotent s : Js.trim (Js.trim s) = Js.trim s.
Proof.
  unfold Js.trim. pose proof (trimStart_head s) as H.
  destruct (Js.trimStart s) as [|c t]; [reflexivity|].
  rewrite (trimEnd_head _ _ H). cbn [Js.trimStart]. rewrite H.
  rewrite (trimEnd_head _ _ H). now rewrite trimEnd_idempotent.
Qed.

(** ** Regular expressions *)

Lemma append_cons c (a b : string) : String c a +:+ b = String c (a +:+ b).
Proof. reflexivity. Qed.

Lemma append_nil (b : string) : "" +:+ b = b.
Proof. reflexivity. Qed.



Lemma lastChar_append prev a b :
  lastChar prev (a +:+ b) = lastChar (lastChar prev a) b.
Proof.
  revert prev. induction a as [|x a IH]; intros prev; [reflexivity|].
  rewrite append_cons. simpl. apply IH.
Qed.




(** *** Removing matches *)



(** *** The label prefix *)

Lemma labelPrefix_exec prev s :
  Js.exec Client.labelPrefix prev s
  = Js.star Js.notLineTerminator prev s 0 afterLabel.
Proof. reflexivity. Qed.





(** *** Quantities with a unit *)


Lemma white_not_digit c : Js.isWhiteSpace c = true -> Js.isDigit c = false.
Proof. ascii_cases c; vm_compute; congruence. Qed.














(** *** The [i] flag *)






















(** ** The cleaned substitutes *)

Lemma cleanSub_trimmed s : Js.trim (Client.cleanSub s) = Client.cleanSub s.
Proof. apply trim_idempotent. Qed.


Lemma nonempty_length (s : string) :
  (0 <? String.length s)%nat = true <-> s <> "".
Proof.
  destruct s; split; intros H; try discriminate; try reflexivity.
  now destruct H.
Qed.


Lemma uniqueSubs_elem substitutes x :
  x ∈ Client.uniqueSubs substitutes
  <-> x <> "" /\ exists s, s ∈ substitutes /\ Client.cleanSub s = x.
Proof.
  unfold Client.uniqueSubs, Client.cleanSubs.
  rewrite uniq_elem, list_elem_of_fmap. split.
  - intros (y & -> & Hy). apply list_elem_of_In, filter_In in Hy as [Hy Hne].
    apply list_elem_of_In, list_elem_of_fmap in Hy as (s & -> & Hs).
    rewrite cleanSub_trimmed. split; [now apply nonempty_length|eauto].
  - intros (Hne & s & Hs & <-). exists (Client.cleanSub s).
    split; [now rewrite cleanSub_trimmed|].
    apply list_elem_of_In, filter_In. split; [|now apply nonempty_length].
    apply list_elem_of_In, list_elem_of_fmap. eauto.
Qed.

(** *** Trimming at both ends *)











(** *** A quantity inside the string *)






(** * Further properties of the handlers *)

(** ** The search handler off the success path *)

(** X1: when the search request to the catalog fails the answer is the 500,
    no detail request is sent and nothing is cached, so that the same query
    asks the catalog again the next time. *)
Theorem search_failure_not_cached (catalog : Catalog) (q : RecipesQuery)
    (ingredients : string) (s : Server) :
  q_ingredients q = Some ingredients ->
  recipeCache s !! searchCacheKey ingredients q = None ->
  findByIngredients catalog (calls s) (finalIngredients ingredients) (number q)
  = Failed ->
  let sent := FindByIngredients (finalIngredients ingredients) (number q) in
  apiRecipes catalog q s = (RecipesServerError, record sent s)
  /\ recipeCache (record sent s) = recipeCache s
  /\ exists rest,
       calls (apiRecipes catalog q (record sent s)).2
       = calls s ++ sent :: sent :: rest.
Proof.
  intros Hq Hmiss Hfail sent.
  assert (Hrun : forall s0,
             recipeCache s0 !! searchCacheKey ingredients q = None ->
             exists rest,
               calls (apiRecipes catalog q s0).2 = calls s0 ++ sent :: rest).
  { intros s0 Hmiss0. subst sent.
    rewrite (apiRecipes_run _ _ _ _ Hq). cbv zeta.
    rewrite (recipeCache_miss _ _ _ Hmiss0), finalIngredients_truthy.
    cbn [negb]. destruct (findByIngredients catalog (calls s0) _ _).
    - exists []. reflexivity.
    - rewrite fetchDetails_run. cbn [snd calls withRecipeCache record].
      rewrite <- app_assoc. now eexists. }
  split_and!.
  - rewrite (apiRecipes_run _ _ _ _ Hq). cbv zeta.
    rewrite (recipeCache_miss _ _ _ Hmiss), finalIngredients_truthy, Hfail.
    reflexivity.
  - reflexivity.
  - destruct (Hrun (record sent s) Hmiss) as [rest Hrest]. exists rest.
    rewrite Hrest. cbn [calls record]. now rewrite <- app_assoc.
Qed.

Lemma search_failure_not_cached_witness :
  apiRecipes failingCatalog (query "egg") initial
  = (RecipesServerError, record (FindByIngredients "egg,salt,oil" 3) initial)
  /\ recipeCache (record (FindByIngredients "egg,salt,oil" 3) initial) = ∅
  /\ exists rest,
       calls (apiRecipes failingCatalog (query "egg")
                (record (FindByIngredients "egg,salt,oil" 3) initial)).2
       = [] ++ FindByIngredients "egg,salt,oil" 3
            :: FindByIngredients "egg,salt,oil" 3 :: rest.
Proof.
  exact (search_failure_not_cached failingCatalog (query "egg") "egg" initial
           eq_refl eq_refl eq_refl).
Defined.

(** X2: on a cache miss that the catalog answers, the handler sends the
    search request and then one detail request for every record of the
    reply, in the order of the reply and whatever the count is: also for
    the records that the truncation drops afterwards. *)
Theorem detail_requests_for_every_record (catalog : Catalog) (q : RecipesQuery)
    (ingredients : string) (s : Server) (data : list RawRecipe) :
  q_ingredients q = Some ingredients ->
  recipeCache s !! searchCacheKey ingredients q = None ->
  findByIngredients catalog (calls s) (finalIngredients ingredients) (number q)
  = Replied data ->
  calls (apiRecipes catalog q s).2
  = calls s
    ++ FindByIngredients (finalIngredients ingredients) (number q)
    :: map (fun r => Information (raw_id r)) data.
Proof.
  intros Hq Hmiss Hreply.
  rewrite (apiRecipes_fetched _ _ _ _ _ Hq Hmiss Hreply).
  cbn [snd calls]. now rewrite <- app_assoc, map_map.
Qed.

Lemma detail_requests_for_every_record_witness :
  calls (apiRecipes threeRecipesCatalog
           {| q_ingredients := Some "egg"; q_number := Some "1";
              q_cuisine := None |} initial).2
  = [] ++ FindByIngredients "egg,salt,oil" 1
       :: map (fun r => Information (raw_id r)) threeRecipes.
Proof.
  exact (detail_requests_for_every_record threeRecipesCatalog
           {| q_ingredients := Some "egg"; q_number := Some "1";
              q_cuisine := None |} "egg" initial threeRecipes
           eq_refl eq_refl eq_refl).
Defined.

(** ** Truncation *)

Lemma slice0_prefix {A} n (xs : list A) :
  exists rest, xs = slice0 n xs ++ rest.
Proof.
  unfold slice0. destruct (n <? 0); eexists; symmetry; apply take_drop.
Qed.

(** X3: the answer is the head of the ranking of all candidates: every
    recipe that is returned may stand before every candidate that is left
    out.  A positive count [n] returns [n] recipes, or all when there are
    fewer; a negative count [-k] leaves out the last [k]. *)
Theorem truncation_keeps_the_best (catalog : Catalog) (q : RecipesQuery)
    (ingredients : string) (s : Server) (data : list RawRecipe) :
  q_ingredients q = Some ingredients ->
  recipeCache s !! searchCacheKey ingredients q = None ->
  findByIngredients catalog (calls s) (finalIngredients ingredients) (number q)
  = Replied data ->
  exists out rest,
    (apiRecipes catalog q s).1 = RecipesJson out
    /\ out ++ rest ≡ₚ
         zip_with attach (map (shape (cuisine q)) data)
           (detailReplies catalog
              (calls s ++ [FindByIngredients (finalIngredients ingredients)
                             (number q)])
              (map (shape (cuisine q)) data))
    /\ StronglySorted precedes (out ++ rest)
    /\ (forall a b, a ∈ out -> b ∈ rest -> precedes a b)
    /\ (0 < number q ->
        length out = Nat.min (Z.to_nat (number q)) (length data))
    /\ (number q < 0 ->
        length out = (length data - Z.to_nat (- number q))%nat).
Proof.
  intros Hq Hmiss Hreply.
  pose proof (apiRecipes_fetched _ _ _ _ _ Hq Hmiss Hreply) as Hrun.
  cbv zeta in Hrun.
  set (enriched := zip_with attach _ _) in *.
  destruct (slice0_prefix (number q) (rank enriched)) as [rest Hrest].
  assert (Hlen : length (rank enriched) = length data).
  { unfold rank. rewrite sort_length. unfold enriched.
    rewrite length_zip_with_l_eq; [apply length_map|].
    now rewrite detailReplies_length. }
  assert (Hsorted : StronglySorted precedes (rank enriched)).
  { apply sort_sorted; [exact precedes_trans | exact compareRecipes_after
                        | exact compareRecipes_not_after]. }
  exists (slice0 (number q) (rank enriched)), rest. split_and!.
  - now rewrite Hrun.
  - rewrite <- Hrest. apply sort_perm.
  - now rewrite <- Hrest.
  - apply sorted_app_precedes. now rewrite <- Hrest.
  - intros Hpos. unfold slice0. destruct (Z.ltb_spec (number q) 0); [lia|].
    now rewrite length_take, Hlen.
  - intros Hneg. unfold slice0. destruct (Z.ltb_spec (number q) 0); [|lia].
    rewrite length_take, Hlen. lia.
Qed.

Lemma truncation_keeps_the_best_witness :
  exists out rest,
    (apiRecipes threeRecipesCatalog
       {| q_ingredients := Some "egg"; q_number := Some "-1";
          q_cuisine := None |} initial).1 = RecipesJson out
    /\ length out = 2%nat
    /\ length rest = 1%nat
    /\ (forall a b, a ∈ out -> b ∈ rest -> precedes a b).
Proof.
  destruct (truncation_keeps_the_best threeRecipesCatalog
              {| q_ingredients := Some "egg"; q_number := Some "-1";
                 q_cuisine := None |} "egg" initial threeRecipes
              eq_refl eq_refl eq_refl)
    as (out & rest & Hout & Hperm & _ & Hbest & _ & Hneg).
  exists out, rest. split; [exact Hout|].
  assert (Hlen : length out = 2%nat) by (apply Hneg; reflexivity).
  split; [exact Hlen|]. split; [|exact Hbest].
  apply Permutation_length in Hperm. rewrite length_app, Hlen in Hperm.
  cbn in Hperm. lia.
Defined.

(** ** The parts of the cache key *)

Lemma all_hasChar p a s :
  allChars p s = true -> p a = false -> hasChar a s = false.
Proof.
  intros Hs Ha. induction s as [|c s IH]; [reflexivity|].
  simpl in *. apply andb_true_iff in Hs as [Hc Hs].
  rewrite (IH Hs), orb_false_r. apply Ascii.eqb_neq. intros ->. congruence.
Qed.

Lemma key_chars k a :
  isIngredientKey k = true -> keptByNormalizer a = false -> hasChar a k = false.
Proof.
  intros Hk Ha. destruct k as [|c k]; [reflexivity|].
  apply (all_hasChar keptByNormalizer); [|exact Ha].
  apply (spaced_kept true), keyFrom_spaced, Hk.
Qed.

Lemma concat_cons2 sep (x y : string) l :
  String.concat sep (x :: y :: l) = x +:+ sep +:+ String.concat sep (y :: l).
Proof. reflexivity. Qed.

Lemma join_hasChar a sep xs :
  hasChar a sep = false ->
  Forall (fun x => hasChar a x = false) xs ->
  hasChar a (Js.join sep xs) = false.
Proof.
  intros Hsep. unfold Js.join. induction 1 as [|x xs Hx Hxs IH]; [reflexivity|].
  destruct xs as [|y xs]; [exact Hx|].
  rewrite concat_cons2, !hasChar_app, Hx, Hsep, IH. reflexivity.
Qed.

Lemma finalIngredientList_keys ingredients :
  Forall (fun t => t <> "" /\ isIngredientKey t = true)
    (finalIngredientList ingredients).
Proof.
  apply Forall_forall. intros t Ht.
  apply withPantry_elem in Ht as [Ht | Ht].
  - apply uniq_elem, list_elem_of_In, filter_In in Ht as [Ht Hne].
    apply list_elem_of_In, list_elem_of_fmap in Ht as (x & -> & _). split.
    + intros E. rewrite E in Hne. discriminate.
    + apply normalizeIngredient_key.
  - unfold pantry in Ht.
    repeat (apply elem_of_cons in Ht as [-> | Ht]; [now split|]).
    now apply elem_of_nil in Ht.
Qed.

Lemma finalIngredients_chars ingredients a :
  keptByNormalizer a = false -> Ascii.eqb a "," = false ->
  hasChar a (finalIngredients ingredients) = false.
Proof.
  intros Ha Hcomma. apply join_hasChar.
  - cbn [hasChar]. now rewrite Ascii.eqb_sym, Hcomma.
  - eapply Forall_impl; [apply finalIngredientList_keys|].
    intros t [_ Hk]. now apply key_chars.
Qed.

Lemma pretty_N_go_hasChar a x s :
  Js.isDigit a = false ->
  hasChar a (pretty_N_go x s) = hasChar a s.
Proof.
  intros Ha. revert s. induction (N.lt_wf_0 x) as [x _ IH]; intros s.
  destruct (decide (x = 0)%N) as [-> | Hx]; [reflexivity|].
  rewrite pretty_N_go_step by lia. rewrite IH by (apply N.div_lt; lia).
  cbn [hasChar].
  replace (Ascii.eqb (pretty_N_char (x `mod` 10)) a) with false; [reflexivity|].
  symmetry. apply Ascii.eqb_neq. intros <-.
  unfold pretty_N_char in Ha. repeat case_match; discriminate.
Qed.

Lemma pretty_Z_hasChar a (n : Z) :
  Js.isDigit a = false -> Ascii.eqb a "-" = false ->
  hasChar a (pretty n) = false.
Proof.
  intros Ha Hdash.
  assert (Hzero : hasChar a "0" = false).
  { cbn [hasChar]. rewrite orb_false_r. apply Ascii.eqb_neq.
    intros <-. discriminate. }
  assert (HN : forall x : N, hasChar a (pretty x) = false).
  { intros x. unfold pretty, pretty_N. case_decide.
    - exact Hzero.
    - now rewrite pretty_N_go_hasChar. }
  destruct n as [|p|p].
  - exact Hzero.
  - exact (HN (N.pos p)).
  - change (hasChar a ("-" +:+ pretty (N.pos p)) = false).
    rewrite hasChar_app, (HN (N.pos p)). cbn [hasChar].
    now rewrite Ascii.eqb_sym, Hdash.
Qed.

(** Two strings cut at their first bar are equal part by part. *)
Lemma bar_split (a b a' b' : string) :
  hasChar "|" a = false -> hasChar "|" a' = false ->
  a +:+ String "|" b = a' +:+ String "|" b' -> a = a' /\ b = b'.
Proof.
  revert a'. induction a as [|c a IH]; intros [|c' a'] Ha Ha' H;
    rewrite ?append_nil, ?append_cons in H.
  - injection H as ->. now split.
  - injection H as <- _. discriminate.
  - injection H as -> _. discriminate.
  - injection H as -> H. cbn [hasChar] in Ha, Ha'.
    apply orb_false_iff in Ha as [_ Ha]. apply orb_false_iff in Ha' as [_ Ha'].
    destruct (IH a' Ha Ha' H) as [-> ->]. now split.
Qed.

(** *** [split] and [join] *)

Lemma split_nonempty sep s : Js.split sep s <> [].
Proof.
  destruct s as [|c s]; simpl; [discriminate|].
  destruct (Ascii.eqb c sep); [discriminate|].
  now destruct (Js.split sep s).
Qed.

Lemma join_split s : Js.join "," (Js.split "," s) = s.
Proof.
  unfold Js.join. induction s as [|c s IH]; [reflexivity|].
  cbn [Js.split]. pose proof (split_nonempty "," s) as Hne.
  destruct (Ascii.eqb_spec c ",") as [-> | Hc].
  - destruct (Js.split "," s) as [|t ts]; [congruence|].
    rewrite concat_cons2, IH. reflexivity.
  - destruct (Js.split "," s) as [|t [|u ts]]; [congruence| |].
    + cbn in IH |- *. now rewrite IH.
    + rewrite concat_cons2, append_cons. rewrite concat_cons2 in IH.
      now rewrite IH.
Qed.

Lemma split_append_comma (x rest : string) :
  hasChar "," x = false ->
  Js.split "," (x +:+ String "," rest) = x :: Js.split "," rest.
Proof.
  induction x as [|c x IH]; intros H.
  - reflexivity.
  - cbn [hasChar] in H. apply orb_false_iff in H as [Hc Hx].
    rewrite append_cons. cbn [Js.split]. rewrite Hc, (IH Hx). reflexivity.
Qed.

Lemma split_no_comma (x : string) :
  hasChar "," x = false -> Js.split "," x = [x].
Proof.
  induction x as [|c x IH]; intros H; [reflexivity|].
  cbn [hasChar] in H. apply orb_false_iff in H as [Hc Hx].
  cbn [Js.split]. now rewrite Hc, (IH Hx).
Qed.

Lemma split_join xs :
  xs <> [] -> Forall (fun x => hasChar "," x = false) xs ->
  Js.split "," (Js.join "," xs) = xs.
Proof.
  intros Hne Hxs. unfold Js.join. induction Hxs as [|x xs Hx Hxs IH];
    [congruence|].
  destruct xs as [|y xs]; [now apply split_no_comma|].
  rewrite concat_cons2.
  change ("," +:+ String.concat "," (y :: xs))
    with (String "," (String.concat "," (y :: xs))).
  rewrite (split_append_comma _ _ Hx), IH; [reflexivity|discriminate].
Qed.

Lemma finalIngredientList_no_comma ingredients :
  Forall (fun x => hasChar "," x = false) (finalIngredientList ingredients).
Proof.
  eapply Forall_impl; [apply finalIngredientList_keys|].
  intros t [_ Hk]. now apply key_chars.
Qed.

Lemma finalIngredientList_nonempty ingredients :
  finalIngredientList ingredients <> [].
Proof.
  intros E. assert (H : "salt" ∈ finalIngredientList ingredients).
  { apply withPantry_elem. right. repeat constructor. }
  rewrite E in H. now apply elem_of_nil in H.
Qed.

Lemma cuisine_cases q :
  cuisine q = []
  \/ exists c, c <> "" /\ cuisine q = Js.split "," (Js.toLowerCase c).
Proof.
  unfold cuisine. destruct (q_cuisine q) as [[|a c]|]; auto.
  right. exists (String a c). split; [discriminate|].
  cbn [Js.truthy]. now rewrite split_toLowerCase.
Qed.

Lemma cuisine_join_inj q1 q2 :
  Js.join "," (cuisine q1) = Js.join "," (cuisine q2) ->
  cuisine q1 = cuisine q2.
Proof.
  destruct (cuisine_cases q1) as [-> | (c1 & Hc1 & ->)];
    destruct (cuisine_cases q2) as [-> | (c2 & Hc2 & ->)];
    rewrite ?join_split; cbn.
  - reflexivity.
  - intros E. destruct c2; [congruence|discriminate].
  - intros E. destruct c1; [congruence|discriminate].
  - now intros ->.
Qed.

Lemma searchCacheKey_parts (i1 i2 : string) (q1 q2 : RecipesQuery) :
  searchCacheKey i1 q1 = searchCacheKey i2 q2 ->
  finalIngredientList i1 = finalIngredientList i2
  /\ number q1 = number q2
  /\ cuisine q1 = cuisine q2.
Proof.
  unfold searchCacheKey, cacheKey. intros H.
  change ("|" +:+ ?x) with (String "|" x) in H.
  apply bar_split in H as [Hfinal H];
    try (apply finalIngredients_chars; reflexivity).
  apply bar_split in H as [Hnum Hcuisine];
    try (apply pretty_Z_hasChar; reflexivity).
  split_and!.
  - rewrite <- (split_join (finalIngredientList i1)),
      <- (split_join (finalIngredientList i2));
      auto using finalIngredientList_nonempty, finalIngredientList_no_comma.
    unfold finalIngredients, finalIngredientList in *. now rewrite Hfinal.
  - now apply (inj pretty).
  - now apply cuisine_join_inj.
Qed.

(** X4: for counts that a Number holds exactly (up to 2^53 - 1 in
    absolute value, where the count of the code is the integer and is
    printed in decimal digits), the cache key tells its three parts apart:
    two requests share a key exactly when the deduplicated ingredient lists
    with the staples are the same list, the counts are equal and the
    lower-cased cuisine lists are the same list. *)
Theorem cacheKey_injective (i1 i2 : string) (q1 q2 : RecipesQuery) :
  Z.abs (number q1) <= 9007199254740991 ->
  Z.abs (number q2) <= 9007199254740991 ->
  searchCacheKey i1 q1 = searchCacheKey i2 q2
  <-> finalIngredientList i1 = finalIngredientList i2
      /\ number q1 = number q2
      /\ cuisine q1 = cuisine q2.
Proof.
  intros _ _. split; [apply searchCacheKey_parts|].
  intros (Hl & Hn & Hc). unfold searchCacheKey, finalIngredients.
  unfold finalIngredientList in Hl. now rewrite Hl, Hn, Hc.
Qed.

Lemma cacheKey_injective_witness :
  searchCacheKey "Egg, rice"
    {| q_ingredients := Some "Egg, rice"; q_number := Some "5";
       q_cuisine := Some "Thai" |}
  = searchCacheKey "egg,RICE,egg"
      {| q_ingredients := Some "egg,RICE,egg"; q_number := Some " 5 recipes";
         q_cuisine := Some "thai" |}
  /\ searchCacheKey "egg"
       {| q_ingredients := Some "egg"; q_number := Some "5";
          q_cuisine := None |}
     <> searchCacheKey "egg"
          {| q_ingredients := Some "egg"; q_number := Some "50";
             q_cuisine := None |}.
Proof.
  split.
  - apply cacheKey_injective; [vm_compute; discriminate..|].
    split_and!; reflexivity.
  - intros E.
    apply cacheKey_injective in E as (_ & Hn & _);
      [discriminate Hn|vm_compute; discriminate..].
Defined.

(** ** The ingredient list for the catalog *)

Lemma uniq_app xs ys :
  Js.uniq (xs ++ ys)
  = Js.uniq xs ++ filter (fun y => y ∉ Js.uniq xs) (Js.uniq ys).
Proof.
  unfold Js.uniq at 1. rewrite fold_left_app. fold (Js.uniq xs).
  apply fold_setAdd_first_seen.
Qed.

(** X5: the ingredient list that is joined for the catalog and for the
    cache key holds no duplicate; each of its tokens is a non-empty
    ingredient key; its tokens are the non-empty normalised tokens of the
    input and the two staples; the tokens of the input come first, in the
    order in which they first appear, and the staples that the input does
    not name follow. *)
Theorem finalIngredientList_spec (ingredients : string) :
  finalIngredients ingredients = Js.join "," (finalIngredientList ingredients)
  /\ NoDup (finalIngredientList ingredients)
  /\ Forall (fun t => t <> "" /\ isIngredientKey t = true)
       (finalIngredientList ingredients)
  /\ (forall t,
        t ∈ finalIngredientList ingredients
        <-> (t <> ""
             /\ exists x, x ∈ Js.split "," ingredients
                          /\ normalizeIngredient x = t)
            \/ t = "salt" \/ t = "oil")
  /\ finalIngredientList ingredients
     = ingSet ingredients
       ++ filter (fun t => t ∉ ingSet ingredients) ["salt"; "oil"]
  /\ (forall x rest,
        cleanIngredients ingredients = x :: rest ->
        ingSet ingredients = x :: filter (fun y => y <> x) (Js.uniq rest)).
Proof.
  split_and!.
  - reflexivity.
  - apply uniq_NoDup.
  - apply finalIngredientList_keys.
  - intros t. unfold finalIngredientList. rewrite withPantry_elem.
    unfold ingSet, cleanIngredients. rewrite uniq_elem.
    unfold pantry. rewrite !elem_of_cons, elem_of_nil.
    split.
    + intros [Ht | Ht]; [left|right; tauto].
      apply list_elem_of_In, filter_In in Ht as [Ht Hne].
      apply list_elem_of_In, list_elem_of_fmap in Ht as (x & -> & Hx).
      split; [|eauto]. intros E. rewrite E in Hne. discriminate.
    + intros [(Hne & x & Hx & <-) | Ht]; [left|right; tauto].
      apply list_elem_of_In, filter_In. split.
      * apply list_elem_of_In, list_elem_of_fmap. eauto.
      * now destruct (normalizeIngredient x).
  - unfold finalIngredientList, withPantry. rewrite uniq_app.
    assert (E : Js.uniq (ingSet ingredients) = ingSet ingredients)
      by apply uniq_fixed, uniq_NoDup.
    rewrite E. reflexivity.
  - intros x rest E. unfold ingSet. rewrite E. apply uniq_cons.
Qed.

(** ** Cuisines *)

Lemma toLowerCase_truthy s : Js.truthy (Js.toLowerCase s) = Js.truthy s.
Proof. now destruct s. Qed.

(** X6: the cuisine filter ignores letter case on both sides: cuisine
    parameters that differ in casing give the same filter list, and a
    record whose cuisines differ from another's in casing only gets the
    same flag; without a filter every record matches. *)
Theorem cuisine_ignores_casing (q1 q2 : RecipesQuery) (c1 c2 : string)
    (r1 r2 : RawRecipe) :
  q_cuisine q1 = Some c1 ->
  q_cuisine q2 = Some c2 ->
  Js.toLowerCase c1 = Js.toLowerCase c2 ->
  map Js.toLowerCase (default [] (raw_cuisines r1))
  = map Js.toLowerCase (default [] (raw_cuisines r2)) ->
  cuisine q1 = cuisine q2
  /\ matchesCuisine (shape (cuisine q1) r1)
     = matchesCuisine (shape (cuisine q2) r2)
  /\ (cuisine q1 = [] -> matchesCuisine (shape (cuisine q1) r1) = true)
  /\ (cuisine q1 <> [] ->
      (matchesCuisine (shape (cuisine q1) r1) = true
       <-> exists c, c ∈ default [] (raw_cuisines r1)
                     /\ Js.toLowerCase c ∈ cuisine q1)).
Proof.
  intros H1 H2 Hc Hr.
  assert (Hq : cuisine q1 = cuisine q2).
  { unfold cuisine. rewrite H1, H2.
    rewrite <- (toLowerCase_truthy c1), <- (toLowerCase_truthy c2), Hc.
    destruct (Js.truthy _); [|reflexivity].
    now rewrite <- !split_toLowerCase, Hc. }
  assert (Hexists : forall (f l : list string),
             existsb (fun c => bool_decide (Js.toLowerCase c ∈ f)) l
             = existsb (fun c => bool_decide (c ∈ f)) (map Js.toLowerCase l)).
  { intros f l. induction l as [|c l IH]; [reflexivity|].
    simpl. now rewrite IH. }
  split_and!.
  - exact Hq.
  - cbn [matchesCuisine shape]. now rewrite Hq, !Hexists, Hr.
  - intros E. cbn [matchesCuisine shape]. now rewrite E.
  - intros Hne. cbn [matchesCuisine shape].
    destruct (cuisine q1) as [|f fs] eqn:E; [congruence|].
    cbn [length Nat.eqb orb]. rewrite existsb_exists.
    split.
    + intros (c & Hin & Hb). exists c. split; [now apply list_elem_of_In|].
      now apply bool_decide_eq_true_1 in Hb.
    + intros (c & Hin & Hf). exists c. split; [now apply list_elem_of_In|].
      now apply bool_decide_eq_true_2.
Qed.

Lemma cuisine_ignores_casing_witness :
  cuisine {| q_ingredients := Some "egg"; q_number := None;
             q_cuisine := Some "Italian,THAI" |}
  = cuisine {| q_ingredients := Some "egg"; q_number := None;
               q_cuisine := Some "italian,thai" |}
  /\ matchesCuisine
       (shape ["italian"; "thai"]
          {| raw_id := 1; raw_title := "Pad thai"; raw_image := "";
             raw_cuisines := Some ["Thai"]; raw_dishTypes := None;
             raw_readyInMinutes := None; raw_usedIngredients := None;
             raw_missedIngredients := None |})
     = true.
Proof.
  pose (q1 := {| q_ingredients := Some "egg"; q_number := None;
                 q_cuisine := Some "Italian,THAI" |}).
  pose (q2 := {| q_ingredients := Some "egg"; q_number := None;
                 q_cuisine := Some "italian,thai" |}).
  pose (r := {| raw_id := 1; raw_title := "Pad thai"; raw_image := "";
                raw_cuisines := Some ["Thai"]; raw_dishTypes := None;
                raw_readyInMinutes := None; raw_usedIngredients := None;
                raw_missedIngredients := None |}).
  destruct (cuisine_ignores_casing q1 q2 "Italian,THAI" "italian,thai" r r
              eq_refl eq_refl eq_refl eq_refl) as (Hq & _ & _ & Hmatch).
  split; [exact Hq|].
  apply Hmatch; [discriminate|].
  exists "Thai". split; [repeat constructor|].
  apply (bool_decide_unpack _). vm_compute. exact I.
Defined.

(** ** One request *)

Lemma rank_sorted recipes : StronglySorted precedes (rank recipes).
Proof.
  apply sort_sorted; [exact precedes_trans | exact compareRecipes_after
                      | exact compareRecipes_not_after].
Qed.

Lemma sorted_app_l {A} (R : A -> A -> Prop) xs ys :
  StronglySorted R (xs ++ ys) -> StronglySorted R xs.
Proof.
  induction xs as [|x xs IH]; intros H; [constructor|].
  cbn [app] in H. apply StronglySorted_inv in H as [Hs Hx].
  constructor; [now apply IH|]. now apply Forall_app in Hx as [? _].
Qed.

Lemma attach_hasSourceUrl r reply : hasSourceUrl (attach r reply).
Proof.
  exists (resolveSourceUrl reply). split; [reflexivity|].
  destruct (resolveSourceUrl_cases reply) as [Ht _].
  intros E. rewrite E in Ht. discriminate.
Qed.

Lemma own_lookup {V} (o : gmap string V) key v :
  getProperty o key = Own v -> o !! key = Some v.
Proof.
  unfold getProperty. destruct (o !! key); [congruence|].
  case_bool_decide; discriminate.
Qed.

(** What a search request does to the state. *)
Lemma apiRecipes_step catalog q s :
  subsCache (apiRecipes catalog q s).2 = subsCache s
  /\ calls s `prefix_of` calls (apiRecipes catalog q s).2
  /\ (recipeCache (apiRecipes catalog q s).2 = recipeCache s
      \/ exists ingredients out,
           recipeCache s !! searchCacheKey ingredients q = None
           /\ recipeCache (apiRecipes catalog q s).2
              = <[searchCacheKey ingredients q := out]> (recipeCache s)
           /\ StronglySorted precedes out
           /\ Forall hasSourceUrl out
           /\ (0 <= number q -> Z.of_nat (length out) <= number q)).
Proof.
  destruct (q_ingredients q) as [ingredients|] eqn:Hq.
  2: { unfold apiRecipes. rewrite Hq. cbn. auto. }
  destruct (getProperty (recipeCache s) (searchCacheKey ingredients q))
    as [cached| |] eqn:G.
  - rewrite (apiRecipes_run _ _ _ _ Hq). cbv zeta. rewrite G. cbn. auto.
  - rewrite (apiRecipes_run _ _ _ _ Hq). cbv zeta. rewrite G. cbn. auto.
  - apply getProperty_undefined_inv in G as G'. destruct G' as [Hmiss _].
    destruct (findByIngredients catalog (calls s)
                (finalIngredients ingredients) (number q))
      as [|data] eqn:R.
    + rewrite (apiRecipes_run _ _ _ _ Hq). cbv zeta.
      rewrite G, finalIngredients_truthy, R. cbn.
      split_and!; [reflexivity|now eexists|now left].
    + rewrite (apiRecipes_fetched _ _ _ _ _ Hq Hmiss R).
      cbn [snd subsCache recipeCache calls].
      split_and!; [reflexivity|rewrite <- app_assoc; now eexists|].
      right. eexists ingredients, _. split_and!; [exact Hmiss|reflexivity|..].
      * destruct (slice0_prefix (number q)
                    (rank (zip_with attach (map (shape (cuisine q)) data)
                       (detailReplies catalog
                          (calls s ++ [FindByIngredients
                                         (finalIngredients ingredients)
                                         (number q)])
                          (map (shape (cuisine q)) data))))) as [rest Hrest].
        eapply sorted_app_l. rewrite <- Hrest. apply rank_sorted.
      * apply Forall_forall. intros x Hx%slice0_subset.
        unfold rank in Hx. rewrite sort_perm in Hx.
        apply elem_of_zip_with in Hx as (r & reply & -> & _ & _).
        apply attach_hasSourceUrl.
      * intros Hn. unfold slice0. destruct (Z.ltb_spec (number q) 0); [lia|].
        rewrite length_take. lia.
Qed.

(** What a substitution request does to the state. *)
Lemma apiSubstitutions_step catalog ingredient s :
  recipeCache (apiSubstitutions catalog ingredient s).2 = recipeCache s
  /\ ((apiSubstitutions catalog ingredient s).2 = s
      \/ exists name,
           ingredient = Some name
           /\ Js.truthy name = true
           /\ subsCache s !! Js.toLowerCase name = None
           /\ defaultSubs !! Js.toLowerCase name = None
           /\ (Js.toLowerCase name ∉ objectPrototype)
           /\ calls (apiSubstitutions catalog ingredient s).2
              = calls s ++ [Substitutes name]
           /\ ((subsCache (apiSubstitutions catalog ingredient s).2
                = subsCache s
                /\ (apiSubstitutions catalog ingredient s).1
                   = SubsJson (noKnownSubstitutes name))
               \/ exists data subs,
                    substitutes catalog (calls s) name = Replied data
                    /\ sub_substitutes data = Some subs
                    /\ sub_status data <> Some "failure"
                    /\ subsCache (apiSubstitutions catalog ingredient s).2
                       = <[Js.toLowerCase name := subs]> (subsCache s)
                    /\ (apiSubstitutions catalog ingredient s).1
                       = SubsJson subs)).
Proof.
  destruct ingredient as [name|]; [|cbn; auto].
  destruct (Js.truthy name) eqn:Ht.
  2: { unfold apiSubstitutions, substitutionsWith. rewrite Ht. cbn. auto. }
  unfold apiSubstitutions. rewrite (substitutionsWith_run _ _ _ _ Ht).
  cbv zeta.
  destruct (getProperty (subsCache s) _) eqn:Gc; [cbn; auto..|].
  destruct (getProperty defaultSubs _) eqn:Gd; [cbn; auto..|].
  apply getProperty_undefined_inv in Gc as [Hc Hp].
  apply getProperty_undefined_inv in Gd as [Hd _].
  destruct (substitutes catalog (calls s) name) as [|data] eqn:R.
  { cbn. split; [reflexivity|]. right. exists name. split_and!; auto. }
  destruct (sub_substitutes data) as [subs|] eqn:Hsubs.
  2: { cbn. split; [reflexivity|]. right. exists name. split_and!; auto. }
  destruct (noData data) eqn:Hno.
  { cbn. split; [reflexivity|]. right. exists name. split_and!; auto. }
  cbn. split; [reflexivity|]. right. exists name. split_and!; auto.
  right. exists data, subs. split_and!; auto.
  unfold noData in Hno. apply orb_false_iff in Hno as [Hno _].
  now apply bool_decide_eq_false_1 in Hno.
Qed.

Lemma serve_grows catalog r s :
  recipeCache s ⊆ recipeCache (serve catalog r s)
  /\ subsCache s ⊆ subsCache (serve catalog r s)
  /\ calls s `prefix_of` calls (serve catalog r s).
Proof.
  destruct r as [q|ingredient]; cbn [serve].
  - destruct (apiRecipes_step catalog q s) as (Hs & Hc & Hr).
    rewrite Hs. split_and!; [|reflexivity|exact Hc].
    destruct Hr as [-> | (i & out & Hmiss & -> & _)]; [reflexivity|].
    now apply insert_subseteq.
  - destruct (apiSubstitutions_step catalog ingredient s) as (Hr & Hs).
    rewrite Hr. split; [reflexivity|].
    destruct Hs as [-> | (name & _ & _ & Hc & _ & _ & Hcalls & Hs)];
      [split; reflexivity|].
    rewrite Hcalls. split; [|now eexists].
    destruct Hs as [[-> _] | (data & subs & _ & _ & _ & -> & _)];
      [reflexivity|]. now apply insert_subseteq.
Qed.

Lemma run_snoc catalog requests r s :
  run catalog (requests ++ [r]) s = serve catalog r (run catalog requests s).
Proof. unfold run. now rewrite fold_left_app. Qed.

Lemma run_grows catalog requests s :
  recipeCache s ⊆ recipeCache (run catalog requests s)
  /\ subsCache s ⊆ subsCache (run catalog requests s)
  /\ calls s `prefix_of` calls (run catalog requests s).
Proof.
  induction requests as [|r requests IH] using rev_ind.
  - split_and!; reflexivity.
  - rewrite run_snoc. destruct IH as (IHr & IHs & IHc).
    destruct (serve_grows catalog r (run catalog requests s))
      as (Hr & Hs & Hc).
    split_and!; etrans; eauto.
Qed.

(** ** Runs of requests *)

(** X7: the server only learns: along any sequence of requests, each
    handled to its end before the next, no entry of either cache is removed
    or replaced and the catalog log is only extended. *)
Theorem run_only_grows (catalog : Catalog) (requests : list Request)
    (s : Server) :
  (forall key recipes,
      recipeCache s !! key = Some recipes ->
      recipeCache (run catalog requests s) !! key = Some recipes)
  /\ (forall key subs,
        subsCache s !! key = Some subs ->
        subsCache (run catalog requests s) !! key = Some subs)
  /\ exists new, calls (run catalog requests s) = calls s ++ new.
Proof.
  destruct (run_grows catalog requests s) as (Hr & Hs & Hc).
  split_and!.
  - intros key recipes H. eapply lookup_weaken; eauto.
  - intros key subs H. eapply lookup_weaken; eauto.
  - exact Hc.
Qed.

Lemma cached_hit catalog q s out s1 :
  apiRecipes catalog q s = (RecipesJson out, s1) ->
  apiRecipes catalog q s1 = (RecipesJson out, s1).
Proof.
  intros H. destruct (q_ingredients q) as [ingredients|] eqn:Hq.
  2: { unfold apiRecipes in H. rewrite Hq in H. discriminate. }
  apply (apiRecipes_json_cached _ _ _ _ _ _ Hq) in H.
  rewrite (apiRecipes_run _ _ _ _ Hq). cbv zeta. now rewrite H.
Qed.

(** X8: when the requests are handled one after the other, each to its end
    before the next one begins, an answered search stays answered: once a
    search has been answered with a list of recipes, the same query gets
    the same list after any further requests, and the catalog is not asked
    again. *)
Theorem cached_search_is_stable (catalog : Catalog) (q : RecipesQuery)
    (s s1 : Server) (out : list Recipe) (requests : list Request) :
  apiRecipes catalog q s = (RecipesJson out, s1) ->
  apiRecipes catalog q (run catalog requests s1)
  = (RecipesJson out, run catalog requests s1).
Proof.
  intros H. destruct (q_ingredients q) as [ingredients|] eqn:Hq.
  2: { unfold apiRecipes in H. rewrite Hq in H. discriminate. }
  apply (apiRecipes_json_cached _ _ _ _ _ _ Hq), own_lookup in H.
  destruct (run_grows catalog requests s1) as (Hr & _ & _).
  rewrite (apiRecipes_run _ _ _ _ Hq). cbv zeta.
  now rewrite (getProperty_own _ _ out (lookup_weaken _ _ _ _ H Hr)).
Qed.

Lemma cached_search_is_stable_witness :
  let first := apiRecipes threeRecipesCatalog (query "egg") initial in
  let later :=
    run threeRecipesCatalog
      [FindSubstitutes (Some "seitan"); SearchRecipes (query "rice")]
      first.2 in
  exists out,
    first.1 = RecipesJson out
    /\ length out = 3%nat
    /\ apiRecipes threeRecipesCatalog (query "egg") later
       = (RecipesJson out, later).
Proof.
  cbv zeta.
  pose proof (apiRecipes_fetched threeRecipesCatalog (query "egg") "egg"
                initial threeRecipes eq_refl eq_refl eq_refl) as E.
  cbv zeta in E. eexists. split_and!.
  - rewrite E. reflexivity.
  - reflexivity.
  - apply (cached_search_is_stable _ _ initial). rewrite E. reflexivity.
Defined.

(** *** Cached searches *)

Lemma initial_recipesCachedWell : recipesCachedWell initial.
Proof. intros key recipes H. cbn in H. now rewrite lookup_empty in H. Qed.

Lemma serve_recipesCachedWell catalog r s :
  recipesCachedWell s -> recipesCachedWell (serve catalog r s).
Proof.
  intros Inv key recipes. destruct r as [q|ingredient]; cbn [serve].
  - destruct (apiRecipes_step catalog q s) as (_ & _ & Hr).
    destruct Hr as [-> | (i & out & Hmiss & -> & Hsorted & Hurls & Hlen)];
      [apply Inv|].
    destruct (decide (key = searchCacheKey i q)) as [-> | Hne].
    + rewrite lookup_insert_eq. intros [= <-]. split_and!; eauto.
    + rewrite lookup_insert_ne by congruence. apply Inv.
  - destruct (apiSubstitutions_step catalog ingredient s) as (-> & _).
    apply Inv.
Qed.

Lemma run_recipesCachedWell catalog requests s :
  recipesCachedWell s -> recipesCachedWell (run catalog requests s).
Proof.
  intros Inv. induction requests as [|r requests IH] using rev_ind;
    [exact Inv|].
  rewrite run_snoc. now apply serve_recipesCachedWell.
Qed.

(** X9: whatever requests came before, every list of recipes that the
    server answers with, from the catalog or from its cache, is ranked, has
    a source URL that is not empty on every recipe, and is no longer than a
    positive count. *)
Theorem served_recipes_are_ranked (catalog : Catalog)
    (requests : list Request) (q : RecipesQuery) (out : list Recipe) :
  (apiRecipes catalog q (run catalog requests initial)).1 = RecipesJson out ->
  StronglySorted precedes out
  /\ Forall hasSourceUrl out
  /\ (0 <= number q -> Z.of_nat (length out) <= number q).
Proof.
  set (s := run catalog requests initial). intros H.
  destruct (q_ingredients q) as [ingredients|] eqn:Hq.
  2: { unfold apiRecipes in H. rewrite Hq in H. discriminate. }
  assert (Inv : recipesCachedWell (serve catalog (SearchRecipes q) s)).
  { apply serve_recipesCachedWell, run_recipesCachedWell,
      initial_recipesCachedWell. }
  cbn [serve] in Inv.
  destruct (apiRecipes catalog q s) as [response s1] eqn:E.
  cbn [fst snd] in *. subst response.
  apply (apiRecipes_json_cached _ _ _ _ _ _ Hq), own_lookup in E.
  destruct (Inv _ _ E) as (Hsorted & Hurls & i' & q' & Hkey & Hlen).
  split_and!; [exact Hsorted|exact Hurls|].
  apply searchCacheKey_parts in Hkey as (_ & Hn & _). now rewrite Hn.
Qed.

Lemma served_recipes_are_ranked_witness :
  exists out,
    (apiRecipes threeRecipesCatalog (query "egg")
       (run threeRecipesCatalog [SearchRecipes (query "egg")] initial)).1
    = RecipesJson out
    /\ StronglySorted precedes out
    /\ Z.of_nat (length out) <= 3.
Proof.
  pose proof (apiRecipes_fetched threeRecipesCatalog (query "egg") "egg"
                initial threeRecipes eq_refl eq_refl eq_refl) as E.
  cbv zeta in E.
  pose proof (cached_hit threeRecipesCatalog (query "egg") initial _ _ E) as H.
  eexists. split; [exact (f_equal fst H)|].
  destruct (served_recipes_are_ranked threeRecipesCatalog
              [SearchRecipes (query "egg")] (query "egg") _
              (f_equal fst H)) as (Hsorted & _ & Hlen).
  split; [exact Hsorted|]. apply Hlen. discriminate.
Defined.

(** *** The substitution cache *)

Lemma initial_subsCachedWell : subsCachedWell initial.
Proof. intros key subs H. cbn in H. now rewrite lookup_empty in H. Qed.

Lemma serve_subsCachedWell catalog r s :
  subsCachedWell s -> subsCachedWell (serve catalog r s).
Proof.
  intros Inv key subs. destruct r as [q|ingredient]; cbn [serve].
  - destruct (apiRecipes_step catalog q s) as (-> & _). apply Inv.
  - destruct (apiSubstitutions_step catalog ingredient s) as (_ & Hs).
    destruct Hs as [-> | (name & _ & _ & Hc & Hd & Hp & _ & Hs)]; [apply Inv|].
    destruct Hs as [[-> _] | (data & new & _ & _ & _ & -> & _)]; [apply Inv|].
    destruct (decide (key = Js.toLowerCase name)) as [-> | Hne].
    + intros _. split_and!; [apply toLowerCase_idempotent|exact Hd|exact Hp].
    + rewrite lookup_insert_ne by congruence. apply Inv.
Qed.

Lemma run_subsCachedWell catalog requests s :
  subsCachedWell s -> subsCachedWell (run catalog requests s).
Proof.
  intros Inv. induction requests as [|r requests IH] using rev_ind;
    [exact Inv|].
  rewrite run_snoc. now apply serve_subsCachedWell.
Qed.

(** X10: the dictionary is never shadowed: whatever requests came before,
    an ingredient whose lower-case form is a key of [defaultSubs] is
    answered with the dictionary's list, and neither the cache nor the
    catalog is touched. *)
Theorem defaults_never_shadowed (catalog : Catalog)
    (requests : list Request) (ingredient : string) (subs : list string) :
  Js.truthy ingredient = true ->
  defaultSubs !! Js.toLowerCase ingredient = Some subs ->
  apiSubstitutions catalog (Some ingredient) (run catalog requests initial)
  = (SubsJson subs, run catalog requests initial).
Proof.
  intros Ht Hd. set (s := run catalog requests initial).
  assert (Hc : subsCache s !! Js.toLowerCase ingredient = None).
  { destruct (subsCache s !! Js.toLowerCase ingredient) as [cached|] eqn:Hc;
      [|reflexivity].
    destruct (run_subsCachedWell catalog requests initial
                initial_subsCachedWell _ _ Hc) as (_ & Hnone & _).
    congruence. }
  unfold apiSubstitutions. rewrite (substitutionsWith_run _ _ _ _ Ht).
  cbv zeta.
  rewrite (getProperty_undefined _ _ Hc (defaultSubs_own _ _ Hd)).
  now rewrite (getProperty_own _ _ _ Hd).
Qed.

Lemma defaults_never_shadowed_witness :
  apiSubstitutions seitanCatalog (Some "Milk")
    (run seitanCatalog
       [FindSubstitutes (Some "milk"); FindSubstitutes (Some "seitan")]
       initial)
  = (SubsJson ["oat milk"; "almond milk"; "soy milk"],
     run seitanCatalog
       [FindSubstitutes (Some "milk"); FindSubstitutes (Some "seitan")]
       initial).
Proof.
  exact (defaults_never_shadowed seitanCatalog
           [FindSubstitutes (Some "milk"); FindSubstitutes (Some "seitan")]
           "Milk" _ eq_refl eq_refl).
Defined.

Lemma fromCatalog_later catalog s s' key subs :
  calls s `prefix_of` calls s' ->
  fromCatalog catalog s key subs -> fromCatalog catalog s' key subs.
Proof.
  intros [new Hnew] (name & before & after & data & Hkey & Hcalls & Hrest).
  exists name, before, (after ++ new), data. split_and!; try tauto.
  rewrite Hnew, Hcalls. now rewrite <- app_assoc.
Qed.

Lemma serve_fromCatalog catalog r s :
  (forall key subs,
      subsCache s !! key = Some subs -> fromCatalog catalog s key subs) ->
  forall key subs,
    subsCache (serve catalog r s) !! key = Some subs ->
    fromCatalog catalog (serve catalog r s) key subs.
Proof.
  intros Inv key subs.
  destruct (serve_grows catalog r s) as (_ & _ & Hprefix).
  destruct r as [q|ingredient]; cbn [serve] in *.
  - destruct (apiRecipes_step catalog q s) as (-> & _).
    intros H. eapply fromCatalog_later; eauto.
  - destruct (apiSubstitutions_step catalog ingredient s) as (_ & Hs).
    destruct Hs as [-> | (name & _ & _ & Hc & Hd & Hp & Hcalls & Hs)];
      [apply Inv|].
    destruct Hs as [[-> _] | (data & new & Hreply & Hsubs & Hstatus & -> & _)].
    { intros H. eapply fromCatalog_later; eauto. }
    destruct (decide (key = Js.toLowerCase name)) as [-> | Hne].
    + rewrite lookup_insert_eq. intros [= <-].
      exists name, (calls s), [], data. split_and!; auto.
    + rewrite lookup_insert_ne by congruence.
      intros H. eapply fromCatalog_later; eauto.
Qed.

(** X11: the substitution cache holds nothing but replies of the catalog:
    whatever requests came before, every cached list is the list of a reply
    without a failure status that the catalog gave to a request of the log,
    made for an ingredient whose lower-case form is the key. *)
Theorem cached_substitutes_from_catalog (catalog : Catalog)
    (requests : list Request) (key : string) (subs : list string) :
  subsCache (run catalog requests initial) !! key = Some subs ->
  fromCatalog catalog (run catalog requests initial) key subs.
Proof.
  revert key subs. induction requests as [|r requests IH] using rev_ind.
  - intros key subs H. cbn in H. now rewrite lookup_empty in H.
  - rewrite run_snoc. now apply serve_fromCatalog.
Qed.

Lemma cached_substitutes_from_catalog_witness :
  fromCatalog seitanCatalog
    (run seitanCatalog
       [FindSubstitutes (Some "Seitan"); FindSubstitutes (Some "milk")]
       initial)
    "seitan" ["1 cup = 1 cup seitan"].
Proof.
  apply (cached_substitutes_from_catalog seitanCatalog
           [FindSubstitutes (Some "Seitan"); FindSubstitutes (Some "milk")]).
  vm_compute. reflexivity.
Defined.

(** X12: a substitution request never touches the recipe cache.  When the
    ingredient is missing or empty the answer is the 400 and the state is
    as it was.  When the ingredient is non-empty, is no property name of
    [Object.prototype] and is found neither in the cache nor in the
    dictionary, the handler sends exactly one request to the catalog: a
    reply with a list and no failure status is answered and stored under
    the lower-case ingredient, and every other outcome is answered with the
    sentence "No known substitutes for <ingredient>" and leaves the cache
    as it was.  In no other case is the state changed. *)
Theorem substitution_request_effects (catalog : Catalog)
    (ingredient : option string) (s : Server) :
  recipeCache (apiSubstitutions catalog ingredient s).2 = recipeCache s
  /\ (ingredient = None \/ ingredient = Some "" ->
      apiSubstitutions catalog ingredient s
      = (SubsBadRequest ["Please provide an ingredient name"], s))
  /\ (forall name,
        ingredient = Some name ->
        Js.truthy name = true ->
        subsCache s !! Js.toLowerCase name = None ->
        defaultSubs !! Js.toLowerCase name = None ->
        Js.toLowerCase name ∉ objectPrototype ->
        calls (apiSubstitutions catalog ingredient s).2
        = calls s ++ [Substitutes name]
        /\ (forall data subs,
              substitutes catalog (calls s) name = Replied data ->
              sub_substitutes data = Some subs ->
              sub_status data <> Some "failure" ->
              subsCache (apiSubstitutions catalog ingredient s).2
              = <[Js.toLowerCase name := subs]> (subsCache s)
              /\ (apiSubstitutions catalog ingredient s).1 = SubsJson subs)
        /\ (substitutes catalog (calls s) name = Failed
            \/ (exists data,
                  substitutes catalog (calls s) name = Replied data
                  /\ (sub_substitutes data = None
                      \/ sub_status data = Some "failure")) ->
            subsCache (apiSubstitutions catalog ingredient s).2 = subsCache s
            /\ (apiSubstitutions catalog ingredient s).1
               = SubsJson (noKnownSubstitutes name)))
  /\ ((apiSubstitutions catalog ingredient s).2 = s
      \/ exists name,
           ingredient = Some name
           /\ Js.truthy name = true
           /\ subsCache s !! Js.toLowerCase name = None
           /\ defaultSubs !! Js.toLowerCase name = None
           /\ (Js.toLowerCase name ∉ objectPrototype)
           /\ calls (apiSubstitutions catalog ingredient s).2
              = calls s ++ [Substitutes name]
           /\ ((subsCache (apiSubstitutions catalog ingredient s).2
                = subsCache s
                /\ (apiSubstitutions catalog ingredient s).1
                   = SubsJson (noKnownSubstitutes name))
               \/ exists data subs,
                    substitutes catalog (calls s) name = Replied data
                    /\ sub_substitutes data = Some subs
                    /\ sub_status data <> Some "failure"
                    /\ subsCache (apiSubstitutions catalog ingredient s).2
                       = <[Js.toLowerCase name := subs]> (subsCache s)
                    /\ (apiSubstitutions catalog ingredient s).1
                       = SubsJson subs)).
Proof.
  split_and!.
  - apply apiSubstitutions_step.
  - intros [-> | ->]; reflexivity.
  - intros name -> Ht Hc Hd Hp. unfold apiSubstitutions.
    rewrite (substitutionsWith_run _ _ _ _ Ht). cbv zeta.
    rewrite (getProperty_undefined _ _ Hc Hp).
    rewrite (getProperty_undefined _ _ Hd Hp).
    destruct (substitutes catalog (calls s) name) as [|data] eqn:R.
    { split_and!; [reflexivity|discriminate|]. intros _. now split. }
    destruct (sub_substitutes data) as [list|] eqn:Hlist.
    2: { split_and!; [reflexivity| |].
         - intros data' subs [= <-]. congruence.
         - intros _. now split. }
    unfold noData. rewrite Hlist.
    rewrite (bool_decide_eq_true_2 (is_Some (Some list))) by eauto.
    cbn [negb orb]. rewrite orb_false_r.
    destruct (decide (sub_status data = Some "failure")) as [Hfail | Hok].
    + rewrite (bool_decide_eq_true_2 _ Hfail).
      split_and!; [reflexivity| |].
      * intros data' subs [= <-]. congruence.
      * intros _. now split.
    + rewrite (bool_decide_eq_false_2 _ Hok).
      split_and!; [reflexivity| |].
      * intros data' subs [= <-] Hs _. rewrite Hlist in Hs.
        injection Hs as <-. now split.
      * intros [[=] | (data' & [= <-] & [Hnone | Hfail])]; congruence.
  - apply apiSubstitutions_step.
Qed.

Lemma substitution_request_effects_witness :
  calls (apiSubstitutions seitanCatalog (Some "Seitan") initial).2
  = [Substitutes "Seitan"]
  /\ subsCache (apiSubstitutions seitanCatalog (Some "Seitan") initial).2
     = {[ "seitan" := ["1 cup = 1 cup seitan"] ]}
  /\ calls (apiSubstitutions failingCatalog (Some "Seitan") initial).2
     = [Substitutes "Seitan"]
  /\ apiSubstitutions failingCatalog (Some "Seitan") initial
     = (SubsJson ["No known substitutes for Seitan"],
        record (Substitutes "Seitan") initial).
Proof.
  assert (Hown : Js.toLowerCase "Seitan" ∉ objectPrototype).
  { apply (bool_decide_unpack _). vm_compute. exact I. }
  destruct (substitution_request_effects seitanCatalog (Some "Seitan") initial)
    as (_ & _ & Hasked & _).
  destruct (Hasked "Seitan" eq_refl eq_refl eq_refl eq_refl Hown)
    as (Hcalls & Hdata & _).
  destruct (Hdata _ _ eq_refl eq_refl ltac:(discriminate)) as [Hcache _].
  destruct (substitution_request_effects failingCatalog (Some "Seitan") initial)
    as (_ & _ & Hfailing & _).
  destruct (Hfailing "Seitan" eq_refl eq_refl eq_refl eq_refl Hown)
    as (Hcalls' & _ & _).
  split_and!; [exact Hcalls|exact Hcache|exact Hcalls'|reflexivity].
Defined.

(** X13: when the requests are handled one after the other, each to its
    end before the next one begins, a list fetched from the catalog is
    served from the cache from then on: after the catalog has answered for
    an ingredient, a request for any spelling with the same lower-case form
    gets the same list after any further requests, without another request
    to the catalog. *)
Theorem substitutes_cache_round_trip (catalog : Catalog)
    (ingredient other : string) (s : Server) (data : SubstituteData)
    (subs : list string) (requests : list Request) :
  Js.truthy ingredient = true ->
  subsCache s !! Js.toLowerCase ingredient = None ->
  defaultSubs !! Js.toLowerCase ingredient = None ->
  Js.toLowerCase ingredient ∉ objectPrototype ->
  substitutes catalog (calls s) ingredient = Replied data ->
  sub_status data <> Some "failure" ->
  sub_substitutes data = Some subs ->
  Js.toLowerCase other = Js.toLowerCase ingredient ->
  let later :=
    run catalog requests (apiSubstitutions catalog (Some ingredient) s).2 in
  apiSubstitutions catalog (Some other) later = (SubsJson subs, later).
Proof.
  intros Ht Hc Hd Hp Hreply Hstatus Hsubs Hother later.
  assert (Hcached : subsCache later !! Js.toLowerCase other = Some subs).
  { destruct (run_grows catalog requests
                (apiSubstitutions catalog (Some ingredient) s).2)
      as (_ & Hgrow & _).
    eapply lookup_weaken; [|exact Hgrow].
    unfold apiSubstitutions. rewrite (substitutionsWith_run _ _ _ _ Ht).
    cbv zeta.
    rewrite (getProperty_undefined _ _ Hc Hp).
    rewrite (getProperty_undefined _ _ Hd Hp), Hreply, Hsubs.
    unfold noData. rewrite Hsubs.
    rewrite bool_decide_eq_false_2 by exact Hstatus.
    rewrite bool_decide_eq_true_2 by eauto.
    cbn. rewrite Hother. apply lookup_insert_eq. }
  assert (Ht' : Js.truthy other = true).
  { rewrite <- toLowerCase_truthy, Hother, toLowerCase_truthy. exact Ht. }
  unfold apiSubstitutions. rewrite (substitutionsWith_run _ _ _ _ Ht').
  cbv zeta. now rewrite (getProperty_own _ _ _ Hcached).
Qed.

Lemma substitutes_cache_round_trip_witness :
  let later :=
    run seitanCatalog [SearchRecipes (query "egg")]
      (apiSubstitutions seitanCatalog (Some "Seitan") initial).2 in
  apiSubstitutions seitanCatalog (Some "SEITAN") later
  = (SubsJson ["1 cup = 1 cup seitan"], later).
Proof.
  apply (substitutes_cache_round_trip seitanCatalog "Seitan" "SEITAN" initial
           {| sub_status := Some "success";
              sub_substitutes := Some ["1 cup = 1 cup seitan"] |});
    try reflexivity; try discriminate.
  apply (bool_decide_unpack _). vm_compute. exact I.
Defined.

(** * Further properties of the client *)

(** ** What the cleaning leaves *)

Lemma star_bound p prev s n k b :
  (forall p' s' n' r, (n <= n')%nat -> k p' s' n' = Some r -> (b <= r)%nat) ->
  forall r, Js.star p prev s n k = Some r -> (b <= r)%nat.
Proof.
  revert prev n. induction s as [|c s IH]; intros prev n Hk r;
    cbn [Js.star].
  - now apply Hk.
  - assert (Hhere : k prev (String c s) n = Some r -> (b <= r)%nat)
      by now apply Hk.
    destruct (p c); [|exact Hhere].
    destruct (Js.star p (Some c) s (S n) k) as [r'|] eqn:E; [|exact Hhere].
    intros [= <-]. apply (IH _ _ (fun p' s' n' r Hn => Hk p' s' n' r
                                    (Nat.le_trans _ _ _ (Nat.le_succ_diag_r n) Hn))
                            _ E).
Qed.

Lemma star_always p prev s n :
  exists r, Js.star p prev s n (fun _ _ n' => Some n') = Some r.
Proof.
  revert prev n. induction s as [|c s IH]; intros prev n; cbn [Js.star];
    [eauto|].
  destruct (p c); [|eauto].
  destruct (IH (Some c) (S n)) as [r ->]. eauto.
Qed.

Lemma afterLabel_bound prev s n r :
  afterLabel prev s n = Some r -> (n < r)%nat.
Proof.
  unfold afterLabel, Js.seq, Js.lit, Js.chr.
  destruct s as [|c s]; [discriminate|].
  destruct (Ascii.eqb "=" c); [|discriminate].
  apply star_bound. now intros _ _ n' r' Hn [= <-].
Qed.

(** At an equals sign the label pattern matches, and not the empty
    string. *)
Lemma labelPrefix_at_equals prev s :
  exists k, Js.exec Client.labelPrefix prev (String "=" s) = Some (S k).
Proof.
  rewrite labelPrefix_exec. cbn [Js.star].
  change (Js.notLineTerminator "=") with true. cbv iota.
  destruct (Js.star Js.notLineTerminator (Some "="%char) s 1 afterLabel)
    as [r|] eqn:E.
  - assert (1 <= r)%nat as Hr.
    { eapply star_bound; [|exact E].
      intros p' s' n' r' Hn H%afterLabel_bound. lia. }
    destruct r as [|k]; [lia|]. now exists k.
  - unfold afterLabel, Js.seq, Js.lit, Js.chr. cbn [Ascii.eqb Bool.eqb].
    cbv iota.
    destruct (star_always Js.isWhiteSpace (Some "="%char) s 1) as [r Hr].
    rewrite Hr.
    assert (1 <= r)%nat as Hle.
    { eapply star_bound; [|exact Hr]. now intros _ _ n' r' Hn [= <-]. }
    destruct r as [|k]; [lia|]. now exists k.
Qed.

Lemma labelPrefix_no_equals skip prev s :
  hasChar "=" (Js.removeFrom Client.labelPrefix skip prev s) = false.
Proof.
  revert skip prev. induction s as [|c s IH]; intros skip prev;
    [reflexivity|].
  cbn [Js.removeFrom]. destruct skip as [|skip]; [|apply IH].
  assert (Hkept : Js.exec Client.labelPrefix prev (String c s) = None
                  \/ Js.exec Client.labelPrefix prev (String c s) = Some 0%nat
                  -> hasChar "="
                       (String c (Js.removeFrom Client.labelPrefix 0
                                    (Some c) s)) = false).
  { intros Hexec. cbn [hasChar]. rewrite IH, orb_false_r.
    apply Ascii.eqb_neq. intros ->.
    destruct (labelPrefix_at_equals prev s) as [k Hk].
    rewrite Hk in Hexec. now destruct Hexec. }
  destruct (Js.exec Client.labelPrefix prev (String c s)) as [[|k]|];
    [apply Hkept; now right|apply IH|apply Hkept; now left].
Qed.

(** Removing matches only deletes code units. *)
Lemma removeFrom_chars a m skip prev s :
  hasChar a s = false -> hasChar a (Js.removeFrom m skip prev s) = false.
Proof.
  revert skip prev. induction s as [|c s IH]; intros skip prev;
    [reflexivity|].
  cbn [hasChar Js.removeFrom]. intros [Hc Hs]%orb_false_iff.
  destruct skip as [|skip]; [|now apply IH].
  destruct (Js.exec m prev (String c s)) as [[|k]|];
    cbn [hasChar]; rewrite ?Hc; now apply IH.
Qed.

Lemma removeFrom_length m skip prev s :
  (String.length (Js.removeFrom m skip prev s) <= String.length s)%nat.
Proof.
  revert skip prev. induction s as [|c s IH]; intros skip prev;
    [reflexivity|].
  cbn [Js.removeFrom]. destruct skip as [|skip].
  - destruct (Js.exec m prev (String c s)) as [[|k]|]; cbn [String.length];
      try (apply le_n_S, IH); apply Nat.le_le_succ_r, IH.
  - cbn [String.length]. apply Nat.le_le_succ_r, IH.
Qed.

Lemma trimStart_chars a s :
  hasChar a s = false -> hasChar a (Js.trimStart s) = false.
Proof.
  induction s as [|c s IH]; [reflexivity|]. cbn [Js.trimStart].
  intros H. destruct (Js.isWhiteSpace c); [|exact H].
  cbn [hasChar] in H. apply orb_false_iff in H as [_ H]. now apply IH.
Qed.

Lemma trimEnd_chars a s :
  hasChar a s = false -> hasChar a (Js.trimEnd s) = false.
Proof.
  induction s as [|c s IH]; [reflexivity|]. rewrite trimEnd_cons.
  cbn [hasChar]. intros [Hc Hs]%orb_false_iff. specialize (IH Hs).
  destruct (Js.trimEnd s) as [|d t].
  - destruct (Js.isWhiteSpace c); [reflexivity|].
    cbn [hasChar]. now rewrite Hc.
  - cbn [hasChar] in *. now rewrite Hc, IH.
Qed.

Lemma trimStart_length s :
  (String.length (Js.trimStart s) <= String.length s)%nat.
Proof.
  induction s as [|c s IH]; [reflexivity|]. cbn [Js.trimStart].
  destruct (Js.isWhiteSpace c); [|reflexivity].
  cbn [String.length]. now apply Nat.le_le_succ_r.
Qed.

Lemma trimEnd_length s :
  (String.length (Js.trimEnd s) <= String.length s)%nat.
Proof.
  induction s as [|c s IH]; [reflexivity|]. rewrite trimEnd_cons.
  destruct (Js.trimEnd s) as [|d t].
  - destruct (Js.isWhiteSpace c); cbn [String.length]; lia.
  - cbn [String.length] in *. lia.
Qed.

Lemma cleanSub_no_equals s : hasChar "=" (Client.cleanSub s) = false.
Proof.
  unfold Client.cleanSub, Js.trim, Js.removeAll.
  apply trimEnd_chars, trimStart_chars, removeFrom_chars,
    labelPrefix_no_equals.
Qed.

(** X14: no equals sign survives the cleaning, whatever the catalog
    sends: no cleaned substitute and no line of the cleaned list holds one.
    The cleaning only deletes: a code unit that the raw string does not hold
    is not in the cleaned one, which is no longer than the raw one. *)
Theorem cleaning_leaves_no_equals (substitutes : list string) :
  (forall s, hasChar "=" (Client.cleanSub s) = false)
  /\ Forall (fun line => hasChar "=" line = false)
       (Client.uniqueSubs substitutes)
  /\ (forall a s, hasChar a s = false -> hasChar a (Client.cleanSub s) = false)
  /\ (forall s,
        (String.length (Client.cleanSub s) <= String.length s)%nat).
Proof.
  split_and!.
  - exact cleanSub_no_equals.
  - apply Forall_forall. intros line (_ & s & _ & <-)%uniqueSubs_elem.
    apply cleanSub_no_equals.
  - intros a s H. unfold Client.cleanSub, Js.trim, Js.removeAll.
    now apply trimEnd_chars, trimStart_chars, removeFrom_chars,
      removeFrom_chars.
  - intros s. unfold Client.cleanSub, Js.trim, Js.removeAll.
    etrans; [apply trimEnd_length|]. etrans; [apply trimStart_length|].
    etrans; apply removeFrom_length.
Qed.

(** ** The dictionary through the client *)

(** X15: the cleaning of the client damages no entry of the dictionary of
    the server: when the body of a 200 reply carries the list of a key of
    [defaultSubs], the list that the card stores is that list, line for
    line. *)
Theorem dictionary_lists_shown_verbatim (key ingredient : string)
    (subs : list string) :
  defaultSubs !! key = Some subs ->
  Client.fetchSubstitutions ingredient
    (Some {| Client.res_status := 200; Client.res_substitutes := Some subs |})
  = subs.
Proof.
  intros H. unfold defaultSubs in H. apply elem_of_list_to_map_2 in H.
  cbn [Client.fetchSubstitutions Client.res_status Client.res_substitutes].
  change (200 =? 200) with true. cbv iota.
  unfold Client.displaySubs.
  repeat (apply elem_of_cons in H as [[= _ ->] | H];
          [vm_compute; reflexivity|]).
  now apply elem_of_nil in H.
Qed.

Lemma dictionary_lists_shown_verbatim_witness :
  Client.fetchSubstitutions "Lemon"
    (Some {| Client.res_status := 200;
             Client.res_substitutes :=
               Some ["lime"; "vinegar + a pinch of sugar"] |})
  = ["lime"; "vinegar + a pinch of sugar"].
Proof.
  exact (dictionary_lists_shown_verbatim "lemon" "Lemon" _ eq_refl).
Defined.

(** ** The recipe card *)

Lemma noKnownSubstitutes_line ingredient :
  "No known substitutes for " +:+ ingredient <> "".
Proof. discriminate. Qed.

(** Whatever the outcome of the request, the stored list has a line, no
    empty line and no line twice. *)
Lemma fetchSubstitutions_lines ingredient res :
  Client.fetchSubstitutions ingredient res <> []
  /\ NoDup (Client.fetchSubstitutions ingredient res)
  /\ Forall (fun line => line <> "") (Client.fetchSubstitutions ingredient res).
Proof.
  assert (Hnone : noKnownSubstitutes ingredient <> []
                  /\ NoDup (noKnownSubstitutes ingredient)
                  /\ Forall (fun line => line <> "")
                       (noKnownSubstitutes ingredient)).
  { unfold noKnownSubstitutes. split_and!; [discriminate| |].
    - apply NoDup_singleton.
    - repeat constructor. apply noKnownSubstitutes_line. }
  destruct res as [[status [substitutes|]]|]; cbn [Client.fetchSubstitutions
    Client.res_status Client.res_substitutes].
  - destruct (status =? 200); [|exact Hnone].
    unfold Client.displaySubs.
    destruct (Client.uniqueSubs substitutes) as [|line shown] eqn:E;
      [exact Hnone|].
    rewrite <- E. split_and!.
    + rewrite E. discriminate.
    + apply uniq_NoDup.
    + apply Forall_forall. now intros line' [Hne _]%uniqueSubs_elem.
  - destruct (status =? 200); exact Hnone.
  - split_and!; [discriminate|apply NoDup_singleton|].
    repeat constructor. discriminate.
Qed.

(** X16: in every state that a card reaches by clicks and settled
    requests, no ingredient has two requests in flight; the requests in
    flight are the ingredients whose loading flag is [true], so that a
    settled request never leaves the flag set; every stored list has a
    line, no empty line and no line twice; and an ingredient whose row is
    open has a request in flight or a stored list. *)
Theorem card_invariant (st : Card.State) :
  rtc Card.step Card.initial st ->
  NoDup (Card.inFlight st)
  /\ (forall name,
        name ∈ Card.inFlight st <-> Card.loadingSubs st !! name = Some true)
  /\ (forall name lines,
        Card.subs st !! name = Some lines ->
        lines <> [] /\ NoDup lines /\ Forall (fun line => line <> "") lines)
  /\ (forall name,
        Card.openSubs st !! name = Some true ->
        name ∈ Card.inFlight st \/ is_Some (Card.subs st !! name)).
Proof.
  revert st. apply rtc_ind_r; [|intros st st' _ Hstep IH].
  { cbn. split_and!.
    - constructor.
    - intros name. rewrite lookup_empty, elem_of_nil. split; [tauto|discriminate].
    - intros name lines. now rewrite lookup_empty.
    - intros name. now rewrite lookup_empty. }
  destruct IH as (Hnodup & Hloading & Hlines & Hopen).
  destruct Hstep as [name st Hclick | name res before after st Hflight].
  - unfold Card.onClick. destruct (Card.isSet (Card.openSubs st) name).
    + cbn. split_and!; [exact Hnodup|exact Hloading|exact Hlines|].
      intros other. destruct (decide (other = name)) as [-> | Hne].
      * rewrite lookup_insert_eq. discriminate.
      * rewrite lookup_insert_ne by congruence. apply Hopen.
    + cbn. split_and!.
      * constructor; [|exact Hnodup]. now rewrite Hloading.
      * intros other. rewrite elem_of_cons.
        destruct (decide (other = name)) as [-> | Hne].
        -- rewrite lookup_insert_eq. tauto.
        -- rewrite lookup_insert_ne by congruence. rewrite <- Hloading.
           tauto.
      * exact Hlines.
      * intros other. rewrite elem_of_cons.
        destruct (decide (other = name)) as [-> | Hne]; [tauto|].
        rewrite lookup_insert_ne by congruence. intros H.
        destruct (Hopen _ H); tauto.
  - rewrite Hflight in Hnodup, Hloading, Hopen.
    apply NoDup_app in Hnodup as (Hbefore & Hcross & Hafter).
    apply NoDup_cons in Hafter as [Hname Hafter].
    assert (Hgone : name ∉ before ++ after).
    { rewrite elem_of_app. intros [H | H]; [|tauto].
      apply (Hcross _ H). now left. }
    assert (Hrest : forall other, other <> name ->
              (other ∈ before ++ after <-> other ∈ before ++ name :: after)).
    { intros other Hne. rewrite !elem_of_app, elem_of_cons. tauto. }
    cbn. split_and!.
    + apply NoDup_app. split_and!; [exact Hbefore| |exact Hafter].
      intros x Hx Hx'. apply (Hcross _ Hx). now right.
    + intros other. destruct (decide (other = name)) as [-> | Hne].
      * rewrite lookup_insert_eq. split; [tauto|discriminate].
      * rewrite lookup_insert_ne by congruence.
        rewrite (Hrest _ Hne). apply Hloading.
    + intros other lines. destruct (decide (other = name)) as [-> | Hne].
      * rewrite lookup_insert_eq. intros [= <-].
        apply fetchSubstitutions_lines.
      * rewrite lookup_insert_ne by congruence. apply Hlines.
    + intros other H. destruct (decide (other = name)) as [-> | Hne].
      * right. rewrite lookup_insert_eq. eauto.
      * rewrite lookup_insert_ne by congruence. rewrite (Hrest _ Hne).
        now apply Hopen.
Qed.

Lemma card_invariant_witness :
  NoDup
    (Card.inFlight
       (Card.onClick "milk"
          (Card.withInFlight []
             (Card.settle "egg" None (Card.onClick "egg" Card.initial)))))
  /\ Card.subs
       (Card.onClick "milk"
          (Card.withInFlight []
             (Card.settle "egg" None (Card.onClick "egg" Card.initial))))
     !! "egg" = Some ["Could not fetch substitutes."].
Proof.
  split; [|reflexivity].
  apply card_invariant.
  eapply rtc_l; [apply (Card.step_click "egg"); discriminate|].
  eapply rtc_l; [apply (Card.step_settle "egg" None [] []); reflexivity|].
  eapply rtc_l; [apply (Card.step_click "milk"); discriminate|].
  apply rtc_refl.
Defined.

(** * Further properties of the search parameters *)

(** ** The comparator *)

(** X17: the comparator given to [sort] is consistent in the sense of
    ECMAScript: swapping its arguments negates its value, and "not after"
    and "before" are transitive, so the order that [sort] produces is fixed
    by the language.  It gives zero exactly for two recipes with the same
    score and the same cuisine flag: no other field takes part in the
    ranking. *)
Theorem compareRecipes_consistent :
  (forall a b, compareRecipes b a = - compareRecipes a b)
  /\ (forall a b c,
        compareRecipes a b <= 0 -> compareRecipes b c <= 0 ->
        compareRecipes a c <= 0)
  /\ (forall a b c,
        compareRecipes a b < 0 -> compareRecipes b c < 0 ->
        compareRecipes a c < 0)
  /\ (forall a b,
        compareRecipes a b = 0
        <-> score a = score b /\ matchesCuisine a = matchesCuisine b)
  /\ (forall a b,
        compareRecipes a b < 0
        <-> score b < score a
            \/ (score a = score b
                /\ matchesCuisine a = true /\ matchesCuisine b = false)).
Proof.
  unfold compareRecipes. split_and!; intros a b; try intros c; cbv zeta;
    repeat match goal with
           | |- context [Z.eqb ?x ?y] => destruct (Z.eqb_spec x y)
           end;
    try lia;
    destruct (matchesCuisine a), (matchesCuisine b);
    try destruct (matchesCuisine c);
    cbn [Z.b2z]; try lia;
    (split; [intros H; try lia; try (split; [lia|congruence]); tauto
            |intros H; try lia;
             try (destruct H as [H | (H1 & H2 & H3)]; lia || congruence);
             try (destruct H as [H1 H2]; lia || congruence)]).
Qed.

(** ** The canonical ingredient list *)

Lemma map_key_fixed l :
  Forall (fun t => t <> "" /\ isIngredientKey t = true) l ->
  List.filter Js.truthy (map normalizeIngredient l) = l.
Proof.
  induction 1 as [|t l [Hne Hkey] _ IH]; [reflexivity|].
  cbn [map List.filter]. rewrite (key_fixed _ Hkey), IH.
  now destruct t.
Qed.

Lemma finalIngredientList_canonical ingredients :
  finalIngredientList (finalIngredients ingredients)
  = finalIngredientList ingredients.
Proof.
  unfold finalIngredientList at 1. unfold ingSet, cleanIngredients.
  unfold finalIngredients. fold (finalIngredientList ingredients).
  rewrite split_join
    by auto using finalIngredientList_nonempty, finalIngredientList_no_comma.
  rewrite (map_key_fixed _ (finalIngredientList_keys ingredients)).
  assert (Hnodup : NoDup (finalIngredientList ingredients))
    by apply uniq_NoDup.
  rewrite (uniq_fixed _ Hnodup). apply withPantry_fixed; [exact Hnodup|].
  intros x Hx. apply withPantry_elem. now right.
Qed.

(** X18: the joined ingredient list is canonical: given back as the
    ingredients parameter it yields itself, so a search for the list that
    was sent to the catalog has the key of the search that sent it. *)
Theorem finalIngredients_canonical (ingredients : string) (q : RecipesQuery) :
  finalIngredients (finalIngredients ingredients)
  = finalIngredients ingredients
  /\ searchCacheKey (finalIngredients ingredients) q
     = searchCacheKey ingredients q.
Proof.
  assert (H : finalIngredients (finalIngredients ingredients)
              = finalIngredients ingredients).
  { unfold finalIngredients at 1.
    fold (finalIngredientList (finalIngredients ingredients)).
    now rewrite finalIngredientList_canonical. }
  split; [exact H|]. unfold searchCacheKey. now rewrite H.
Qed.

(** ** The count parameter *)

Lemma digitValue_pretty d :
  (d < 10)%N -> Js.digitValue 10 (pretty_N_char d) = Some (Z.of_N d).
Proof.
  intros H.
  assert (d = 0 \/ d = 1 \/ d = 2 \/ d = 3 \/ d = 4 \/ d = 5 \/ d = 6
          \/ d = 7 \/ d = 8 \/ d = 9)%N as Hd by lia.
  repeat (destruct Hd as [-> | Hd]; [reflexivity|]). now subst.
Qed.

Lemma digit_pretty d : (d < 10)%N -> Js.isDigit (pretty_N_char d) = true.
Proof.
  intros H.
  assert (d = 0 \/ d = 1 \/ d = 2 \/ d = 3 \/ d = 4 \/ d = 5 \/ d = 6
          \/ d = 7 \/ d = 8 \/ d = 9)%N as Hd by lia.
  repeat (destruct Hd as [-> | Hd]; [reflexivity|]). now subst.
Qed.

(** Reading the digits that [pretty] writes. *)
Lemma digitsValue_pretty x s :
  (0 < x)%N ->
  Js.digitsValue 10 None (pretty_N_go x s)
  = Js.digitsValue 10 (Some (Z.of_N x)) s.
Proof.
  revert s. induction (N.lt_wf_0 x) as [x _ IH]. intros s Hx.
  rewrite pretty_N_go_step by exact Hx.
  assert (Hmod : (x `mod` 10 < 10)%N) by (apply N.mod_lt; lia).
  assert (Hsplit : Z.of_N x = 10 * Z.of_N (x `div` 10) + Z.of_N (x `mod` 10)).
  { rewrite (N.div_mod x 10) at 1 by lia. lia. }
  destruct (decide (x `div` 10 = 0)%N) as [E | E].
  - rewrite E, pretty_N_go_0. cbn [Js.digitsValue].
    rewrite (digitValue_pretty _ Hmod). cbn [default].
    rewrite Hsplit, E. reflexivity.
  - rewrite IH by (try apply N.div_lt; lia). cbn [Js.digitsValue].
    rewrite (digitValue_pretty _ Hmod). cbn [default].
    now rewrite Hsplit.
Qed.

Lemma pretty_N_go_digits x s :
  allChars Js.isDigit s = true -> allChars Js.isDigit (pretty_N_go x s) = true.
Proof.
  revert s. induction (N.lt_wf_0 x) as [x _ IH]. intros s Hs.
  destruct (decide (x = 0)%N) as [-> | Hx]; [exact Hs|].
  rewrite pretty_N_go_step by lia. apply IH; [apply N.div_lt; lia|].
  cbn [allChars]. rewrite Hs, digit_pretty; [reflexivity|].
  apply N.mod_lt. lia.
Qed.

Lemma trimStart_digit c s :
  Js.isDigit c = true -> Js.trimStart (String c s) = String c s.
Proof.
  intros H. cbn [Js.trimStart].
  destruct (Js.isWhiteSpace c) eqn:E; [|reflexivity].
  apply white_not_digit in E. congruence.
Qed.

(** A run of decimal digits has no sign and no radix prefix. *)
Lemma parseInt_digits c s :
  Js.isDigit c = true -> allChars Js.isDigit s = true ->
  Js.parseInt (String c s) = Js.digitsValue 10 None (String c s)
  /\ Js.parseInt (String "-" (String c s))
     = option_map Z.opp (Js.digitsValue 10 None (String c s)).
Proof.
  intros Hc Hs.
  assert (Hone : forall r : option Z,
            match r with Some n => Some (1 * n) | None => None end = r).
  { intros [n|]; [|reflexivity]. now rewrite Z.mul_1_l. }
  assert (Hminus : forall r : option Z,
            match r with Some n => Some (-1 * n) | None => None end
            = option_map Z.opp r).
  { intros [n|]; reflexivity. }
  unfold Js.parseInt. rewrite (trimStart_digit _ _ Hc).
  change (Js.trimStart (String "-" (String c s)))
    with (String "-" (String c s)).
  cbv iota beta.
  ascii_cases c; try (vm_compute in Hc; discriminate Hc);
    try (split; [apply Hone|apply Hminus]).
  destruct s as [|c2 s2]; [split; [apply Hone|apply Hminus]|].
  cbn [allChars] in Hs. apply andb_true_iff in Hs as [Hc2 _].
  ascii_cases c2; try (vm_compute in Hc2; discriminate Hc2);
    split; first [apply Hone | apply Hminus].
Qed.

Lemma parseInt_pretty (z : Z) : Js.parseInt (pretty z) = Some z.
Proof.
  assert (HN : forall p,
            exists c s, pretty_N_go (N.pos p) "" = String c s
                        /\ Js.isDigit c = true
                        /\ allChars Js.isDigit s = true).
  { intros p.
    pose proof (pretty_N_go_digits (N.pos p) "" eq_refl) as Hd.
    pose proof (digitsValue_pretty (N.pos p) "" eq_refl) as Hv.
    destruct (pretty_N_go (N.pos p) "") as [|c s]; [discriminate|].
    cbn [allChars] in Hd. apply andb_true_iff in Hd as [Hc Hs]. eauto. }
  destruct z as [|p|p].
  - reflexivity.
  - destruct (HN p) as (c & s & E & Hc & Hs).
    change (pretty (Z.pos p)) with (pretty_N_go (N.pos p) "").
    rewrite E. destruct (parseInt_digits c s Hc Hs) as [-> _].
    rewrite <- E, digitsValue_pretty by reflexivity. reflexivity.
  - destruct (HN p) as (c & s & E & Hc & Hs).
    change (pretty (Z.neg p)) with (String "-" (pretty_N_go (N.pos p) "")).
    rewrite E. destruct (parseInt_digits c s Hc Hs) as [_ ->].
    rewrite <- E, digitsValue_pretty by reflexivity. reflexivity.
Qed.

(** X19: the count is read as it is written: the decimal numeral of an
    integer other than zero that a Number holds exactly, as the number
    parameter, gives that integer, also a negative one, and the numeral of
    zero gives 3; a text that is no number and a missing parameter give 3;
    and the count is never zero. *)
Theorem number_reads_numerals (q : RecipesQuery) (z : Z) :
  Z.abs z <= 9007199254740991 ->
  Js.parseInt (pretty z) = Some z
  /\ number (withNumber (pretty z)) = (if z =? 0 then 3 else z)
  /\ number q <> 0
  /\ (q_number q = None -> number q = 3)
  /\ (forall text, q_number q = Some text -> Js.parseInt text = None ->
      number q = 3).
Proof.
  intros _. split_and!.
  - apply parseInt_pretty.
  - unfold number, withNumber. cbn [q_number]. now rewrite parseInt_pretty.
  - unfold number. destruct (q_number q) as [text|]; [|discriminate].
    destruct (Js.parseInt text) as [n|]; [|discriminate].
    destruct (Z.eqb_spec n 0); [discriminate|assumption].
  - intros H. unfold number. now rewrite H.
  - intros text H Hnan. unfold number. now rewrite H, Hnan.
Qed.

Lemma number_reads_numerals_witness :
  number (withNumber "-12") = -12
  /\ number (withNumber "0") = 3
  /\ number (withNumber "") <> 0.
Proof.
  destruct (number_reads_numerals (withNumber "") (-12)) as (_ & H & Hnz & _);
    [vm_compute; discriminate|].
  destruct (number_reads_numerals (withNumber "") 0) as (_ & H0 & _);
    [vm_compute; discriminate|].
  split_and!; [exact H|exact H0|exact Hnz].
Defined.

(** * Further properties of the answers *)

(** X20: the answers of a search, for a request that gives each parameter
    once at most: the handler throws before it answers exactly when the
    ingredients parameter is missing; it answers with the 500 error exactly
    when the key is not cached and the search request to the catalog fails,
    by a rejected promise or by a reply that the handler cannot read as an
    array of records; it never answers with the 400 error and never with an
    inherited property of the cache object. *)
Theorem search_response_cases (catalog : Catalog) (q : RecipesQuery)
    (s : Server) :
  ((apiRecipes catalog q s).1 = RecipesTypeError <-> q_ingredients q = None)
  /\ ((apiRecipes catalog q s).1 = RecipesServerError
      <-> exists ingredients,
            q_ingredients q = Some ingredients
            /\ recipeCache s !! searchCacheKey ingredients q = None
            /\ findByIngredients catalog (calls s)
                 (finalIngredients ingredients) (number q) = Failed)
  /\ (apiRecipes catalog q s).1 <> RecipesBadRequest
  /\ (apiRecipes catalog q s).1 <> RecipesJsonInherited.
Proof.
  destruct (q_ingredients q) as [ingredients|] eqn:Hq.
  2: { unfold apiRecipes. rewrite Hq. cbn.
       split_and!; try discriminate; [tauto|].
       split; [discriminate|]. now intros (i & H & _). }
  rewrite (apiRecipes_run _ _ _ _ Hq). cbv zeta.
  destruct (recipeCache s !! searchCacheKey ingredients q) as [cached|] eqn:L.
  { rewrite (getProperty_own _ _ _ L). cbn.
    split_and!; try discriminate; split; try discriminate.
    intros (i & [= <-] & H & _). congruence. }
  rewrite (recipeCache_miss _ _ _ L), finalIngredients_truthy. cbn [negb].
  destruct (findByIngredients catalog (calls s) _ _) as [|data] eqn:R.
  { cbn. split_and!; try discriminate; split; try discriminate; eauto. }
  destruct (fetchDetails _ _ _) as [recipes s2]. cbn.
  split_and!; try discriminate; split; try discriminate.
  intros (i & [= <-] & _ & H). congruence.
Qed.

(** X21: an ingredient whose lower-case form is a property name of
    [Object.prototype], such as "constructor", is answered with the
    inherited property and not with a list, whatever requests came before:
    neither the dictionary nor the catalog is asked and nothing is cached. *)
Theorem prototype_names_get_no_list (catalog : Catalog)
    (requests : list Request) (ingredient : string) :
  Js.toLowerCase ingredient ∈ objectPrototype ->
  apiSubstitutions catalog (Some ingredient) (run catalog requests initial)
  = (SubsJsonInherited, run catalog requests initial).
Proof.
  intros Hp. set (s := run catalog requests initial).
  assert (Ht : Js.truthy ingredient = true).
  { destruct ingredient; [|reflexivity]. cbn in Hp.
    apply (bool_decide_pack _) in Hp. vm_compute in Hp. destruct Hp. }
  assert (Hc : subsCache s !! Js.toLowerCase ingredient = None).
  { destruct (subsCache s !! Js.toLowerCase ingredient) as [cached|] eqn:Hc;
      [|reflexivity].
    destruct (run_subsCachedWell catalog requests initial
                initial_subsCachedWell _ _ Hc) as (_ & _ & Hown).
    contradiction. }
  unfold apiSubstitutions. rewrite (substitutionsWith_run _ _ _ _ Ht).
  cbv zeta. unfold getProperty at 1. rewrite Hc.
  now rewrite bool_decide_eq_true_2.
Qed.

Lemma prototype_names_get_no_list_witness :
  apiSubstitutions seitanCatalog (Some "Constructor")
    (run seitanCatalog [FindSubstitutes (Some "seitan")] initial)
  = (SubsJsonInherited,
     run seitanCatalog [FindSubstitutes (Some "seitan")] initial).
Proof.
  apply (prototype_names_get_no_list seitanCatalog
           [FindSubstitutes (Some "seitan")] "Constructor").
  apply (bool_decide_unpack _). vm_compute. exact I.
Defined.
